(** * A shallow embedding of the todo service (app/models.py, app/todo_service.py)

    The development follows the layering of the program:
    - [Datetime]: the naive [datetime] values the service stamps rows with;
    - [Todo], [TodoCreate], [TodoUpdate], [TodoResponse]: the classes of
      app/models.py, one module per class;
    - [Session]: the storage layer reached through [get_session];
    - [TodoService]: the seven static methods of app/todo_service.py,
      written in a small state monad over the database and the clock;
    - the theorems about them. *)

From Stdlib Require Import ZArith List String Ascii Bool Lia.
From Stdlib Require Import Sorting.Sorted Sorting.Permutation.
Import ListNotations.

Local Open Scope string_scope.
Local Open Scope Z_scope.

(** ** datetime *)

Module Datetime.

(** A naive [datetime.datetime]: the seven calendar fields. *)
Record t := mk {
  year : Z; month : Z; day : Z;
  hour : Z; minute : Z; second : Z; microsecond : Z
}.

Definition fields (d : t) : list Z :=
  [year d; month d; day d; hour d; minute d; second d; microsecond d].

(** Datetimes compare field by field, most significant first. *)
Fixpoint lex_compare (a b : list Z) : comparison :=
  match a, b with
  | [], [] => Eq
  | [], _ :: _ => Lt
  | _ :: _, [] => Gt
  | x :: a', y :: b' =>
      match x ?= y with
      | Eq => lex_compare a' b'
      | c => c
      end
  end.

Definition compare (a b : t) : comparison := lex_compare (fields a) (fields b).

(** [a <= b] *)
Definition leb (a b : t) : bool :=
  match compare a b with Gt => false | _ => true end.

(** [a < b] *)
Definition ltb (a b : t) : bool :=
  match compare a b with Lt => true | _ => false end.

(** [a == b] *)
Definition eqb (a b : t) : bool :=
  match compare a b with Eq => true | _ => false end.

Definition le (a b : t) : Prop := leb a b = true.

(** The last decimal digit of [n], as a character. *)
Definition digit (n : Z) : ascii := ascii_of_nat (48 + Z.to_nat (n mod 10)).

(** ['%0<width>d' % n] for [0 <= n < 10^width], which is the range of
    every field of a datetime (MAXYEAR is 9999). *)
Fixpoint pad_dec (width : nat) (n : Z) : string :=
  match width with
  | O => ""
  | S w => pad_dec w (n / 10) ++ String (digit n) ""
  end.

(** [datetime.isoformat()] of a naive datetime: the microseconds are
    printed only when they are not zero. *)
Definition isoformat (d : t) : string :=
  pad_dec 4 (year d) ++ "-" ++ pad_dec 2 (month d) ++ "-" ++ pad_dec 2 (day d)
  ++ "T" ++ pad_dec 2 (hour d) ++ ":" ++ pad_dec 2 (minute d) ++ ":"
  ++ pad_dec 2 (second d)
  ++ (if microsecond d =? 0 then "" else "." ++ pad_dec 6 (microsecond d)).

End Datetime.

(** ** app/models.py *)

(** pydantic's [ValidationError], as far as the models can raise it: a
    string field longer than its [max_length]. *)
Inductive ValidationError : Type :=
| string_too_long (field : string) (max_length : nat).

(** [len(s) > max_length], the check behind [Field(max_length=...)]. *)
Definition too_long (max_length : nat) (s : string) : bool :=
  (max_length <? String.length s)%nat.

Module Todo.

(** The persisted row, [class Todo(SQLModel, table=True)].  A table model
    is not validated when it is built. *)
Record t := mk {
  id : option Z;
  title : string;
  description : string;
  completed : bool;
  created_at : Datetime.t;
  updated_at : Datetime.t
}.

Definition set_id (i : option Z) (r : t) : t :=
  mk i (title r) (description r) (completed r) (created_at r) (updated_at r).
Definition set_title (s : string) (r : t) : t :=
  mk (id r) s (description r) (completed r) (created_at r) (updated_at r).
Definition set_description (s : string) (r : t) : t :=
  mk (id r) (title r) s (completed r) (created_at r) (updated_at r).
Definition set_completed (b : bool) (r : t) : t :=
  mk (id r) (title r) (description r) b (created_at r) (updated_at r).
Definition set_updated_at (d : Datetime.t) (r : t) : t :=
  mk (id r) (title r) (description r) (completed r) (created_at r) d.

(** [r.id == i] for a primary key [i]. *)
Definition has_id (i : Z) (r : t) : bool :=
  match id r with
  | Some j => j =? i
  | None => false
  end.

End Todo.

Module TodoCreate.

Definition title_max_length : nat := 200.
Definition description_max_length : nat := 1000.

(** [class TodoCreate(SQLModel, table=False)] *)
Record t := mk {
  title : string;
  description : string
}.

(** [TodoCreate(title=..., description=...)]: a data model validates its
    fields when it is built; an omitted description takes the default
    [""].  The only constraints declared are the two [max_length]s. *)
Definition init (title : string) (description : option string)
  : ValidationError + t :=
  let description := match description with Some d => d | None => "" end in
  if too_long title_max_length title then
    inl (string_too_long "title" title_max_length)
  else if too_long description_max_length description then
    inl (string_too_long "description" description_max_length)
  else inr (mk title description).

End TodoCreate.

Module TodoUpdate.

(** [class TodoUpdate(SQLModel, table=False)]: every field is
    [Optional], with default [None]. *)
Record t := mk {
  title : option string;
  description : option string;
  completed : option bool
}.

Definition init (title description : option string) (completed : option bool)
  : ValidationError + t :=
  if match title with Some s => too_long 200 s | None => false end then
    inl (string_too_long "title" 200%nat)
  else if match description with Some s => too_long 1000 s | None => false end then
    inl (string_too_long "description" 1000%nat)
  else inr (mk title description completed).

End TodoUpdate.

Module TodoResponse.

(** [class TodoResponse(SQLModel, table=False)] *)
Record t := mk {
  id : Z;
  title : string;
  description : string;
  completed : bool;
  created_at : string;
  updated_at : string
}.

(** [todo.id or 0] *)
Definition id_or_0 (i : option Z) : Z :=
  match i with
  | Some j => if j =? 0 then 0 else j
  | None => 0
  end.

Definition from_todo (todo : Todo.t) : t :=
  mk (id_or_0 (Todo.id todo))
     (Todo.title todo)
     (Todo.description todo)
     (Todo.completed todo)
     (Datetime.isoformat (Todo.created_at todo))
     (Datetime.isoformat (Todo.updated_at todo)).

End TodoResponse.

(** ** The world the service runs in *)

(** The table [todos], rows in insertion order (oldest first), and the
    next primary key the table hands out. *)
Record Database := mkDatabase {
  todos : list Todo.t;
  next_id : Z
}.

(** The database, and the clock behind [datetime.utcnow()]: [clock n] is
    the reading the [n]-th call returns, [ticks] counts the calls made. *)
Record World := mkWorld {
  db : Database;
  clock : nat -> Datetime.t;
  ticks : nat
}.

Definition with_db (d : Database) (w : World) : World :=
  mkWorld d (clock w) (ticks w).

(** A freshly reset database, under a given clock. *)
Definition empty_db : Database := mkDatabase [] 1.
Definition initial (c : nat -> Datetime.t) : World := mkWorld empty_db c 0.

(** Computations that read and change the world. *)
Definition M (A : Type) : Type := World -> A * World.

Definition ret {A} (a : A) : M A := fun w => (a, w).
Definition bind {A B} (m : M A) (k : A -> M B) : M B :=
  fun w => let (a, w') := m w in k a w'.

Notation "x <- m ;; k" := (bind m (fun x => k))
  (at level 61, m at next level, right associativity).

(** [datetime.utcnow()] *)
Definition utcnow : M Datetime.t :=
  fun w => (clock w (ticks w), mkWorld (db w) (clock w) (S (ticks w))).

(** ** The storage layer *)

Module Session.

(** Modelled from the spec: app/database.py ([get_session], the engine
    and its tables) is not among the sources.  [session.get(Todo, i)]
    is the point lookup [getById(id) -> record | absent]. *)
Definition get (i : Z) : M (option Todo.t) :=
  fun w => (find (Todo.has_id i) (todos (db w)), w).

(** Modelled from the spec: [session.add(todo); session.commit();
    session.refresh(todo)] for a new object is [insert(record) -> id]:
    the storage layer assigns the identifier, which is positive and is
    not used again while the store lives.  The refreshed object is the
    row as stored. *)
Definition insert (todo : Todo.t) : M Todo.t :=
  fun w =>
    let row := Todo.set_id (Some (next_id (db w))) todo in
    (row, with_db (mkDatabase (todos (db w) ++ [row])%list (next_id (db w) + 1)) w).

Definition replace (todo : Todo.t) (r : Todo.t) : Todo.t :=
  match Todo.id todo with
  | Some i => if Todo.has_id i r then todo else r
  | None => r
  end.

(** Modelled from the spec: [session.add(todo); session.commit();
    session.refresh(todo)] for an object loaded by [get] is
    [update(record)]: the row with the object's id is overwritten in
    place, and the refreshed object is the row read back. *)
Definition update (todo : Todo.t) : M Todo.t :=
  fun w =>
    let rows := map (replace todo) (todos (db w)) in
    let read_back :=
      match Todo.id todo with
      | Some i => match find (Todo.has_id i) rows with
                  | Some r => r
                  | None => todo
                  end
      | None => todo
      end in
    (read_back, with_db (mkDatabase rows (next_id (db w))) w).

(** Modelled from the spec: [session.delete(todo); session.commit()] is
    [deleteById(id)]; the identifier counter is left as it is. *)
Definition delete (todo : Todo.t) : M unit :=
  fun w =>
    let keep r := match Todo.id todo with
                  | Some i => negb (Todo.has_id i r)
                  | None => true
                  end in
    (tt, with_db (mkDatabase (filter keep (todos (db w))) (next_id (db w))) w).

(** [session.exec(select(Todo)).all()] *)
Definition select_all : M (list Todo.t) :=
  fun w => (todos (db w), w).

(** [x] comes behind [y] in the listing: [y] was created later, or at the
    same time and the engine holds it before [x]. *)
Definition behind (rank : Todo.t -> Z) (x y : Todo.t) : bool :=
  Datetime.ltb (Todo.created_at x) (Todo.created_at y)
  || (Datetime.eqb (Todo.created_at x) (Todo.created_at y)
      && (rank y <? rank x)).

(** Put [x] in front of the first row it does not come behind. *)
Fixpoint insert_desc (rank : Todo.t -> Z) (x : Todo.t) (l : list Todo.t)
  : list Todo.t :=
  match l with
  | [] => [x]
  | y :: l' =>
      if behind rank x y then y :: insert_desc rank x l' else x :: l
  end.

Fixpoint sort_desc (rank : Todo.t -> Z) (l : list Todo.t) : list Todo.t :=
  match l with
  | [] => []
  | x :: l' => insert_desc rank x (sort_desc rank l')
  end.

(** Modelled from the spec: app/database.py and the engine behind it are
    not among the sources.  [session.exec(select(Todo).order_by(
    desc(Todo.created_at))).all()] names one key, [created_at],
    descending; among rows created at the same time the order is the
    engine's, which the query does not fix.  It is given by [rank]: of
    two such rows the one of smaller rank comes first, and rows of equal
    rank come in the order of the table. *)
Definition select_order_by_desc_created_at (rank : Todo.t -> Z)
  : M (list Todo.t) :=
  fun w => (sort_desc rank (todos (db w)), w).

End Session.

(** ** app/todo_service.py *)

(** [sum(...)] over integers *)
Definition sum (l : list Z) : Z := fold_left Z.add l 0.

Module TodoService.

(** [rank] is the order in which the engine holds rows created at the
    same time, see [Session.select_order_by_desc_created_at]. *)
Definition get_all_todos (rank : Todo.t -> Z) : M (list TodoResponse.t) :=
  todos <- Session.select_order_by_desc_created_at rank ;;
  ret (map TodoResponse.from_todo todos).

Definition get_todo_by_id (todo_id : Z) : M (option TodoResponse.t) :=
  todo <- Session.get todo_id ;;
  match todo with
  | None => ret None
  | Some todo => ret (Some (TodoResponse.from_todo todo))
  end.

Definition create_todo (todo_data : TodoCreate.t) : M TodoResponse.t :=
  created_at <- utcnow ;;
  updated_at <- utcnow ;;
  let todo := Todo.mk None (TodoCreate.title todo_data)
                (TodoCreate.description todo_data) false
                created_at updated_at in
  todo <- Session.insert todo ;;
  ret (TodoResponse.from_todo todo).

(** The three [if todo_data.<field> is not None] assignments. *)
Definition apply_fields (todo_data : TodoUpdate.t) (todo : Todo.t) : Todo.t :=
  let todo := match TodoUpdate.title todo_data with
              | Some s => Todo.set_title s todo
              | None => todo
              end in
  let todo := match TodoUpdate.description todo_data with
              | Some s => Todo.set_description s todo
              | None => todo
              end in
  match TodoUpdate.completed todo_data with
  | Some b => Todo.set_completed b todo
  | None => todo
  end.

Definition update_todo (todo_id : Z) (todo_data : TodoUpdate.t)
  : M (option TodoResponse.t) :=
  todo <- Session.get todo_id ;;
  match todo with
  | None => ret None
  | Some todo =>
      let todo := apply_fields todo_data todo in
      now <- utcnow ;;
      let todo := Todo.set_updated_at now todo in
      todo <- Session.update todo ;;
      ret (Some (TodoResponse.from_todo todo))
  end.

Definition toggle_todo_completion (todo_id : Z) : M (option TodoResponse.t) :=
  todo <- Session.get todo_id ;;
  match todo with
  | None => ret None
  | Some todo =>
      let todo := Todo.set_completed (negb (Todo.completed todo)) todo in
      now <- utcnow ;;
      let todo := Todo.set_updated_at now todo in
      todo <- Session.update todo ;;
      ret (Some (TodoResponse.from_todo todo))
  end.

Definition delete_todo (todo_id : Z) : M bool :=
  todo <- Session.get todo_id ;;
  match todo with
  | None => ret false
  | Some todo =>
      _ <- Session.delete todo ;;
      ret true
  end.

Definition get_stats : M (list (string * Z)) :=
  all_todos <- Session.select_all ;;
  let total := Z.of_nat (List.length all_todos) in
  let completed := sum (map (fun _ => 1) (filter Todo.completed all_todos)) in
  let pending := total - completed in
  ret [("total", total); ("completed", completed); ("pending", pending)].

End TodoService.

(** ** The operations as the callers use them *)

(** The result of a call that may raise. *)
Inductive outcome (A : Type) : Type :=
| Returned (a : A)
| Raised (e : ValidationError).
Arguments Returned {A} a.
Arguments Raised {A} e.

(** [TodoService.create_todo(TodoCreate(title=..., description=...))]: the
    request is built first, and the service is entered only with a request
    that passed validation. *)
Definition create (title : string) (description : option string)
  : M (outcome TodoResponse.t) :=
  match TodoCreate.init title description with
  | inl e => ret (Raised e)
  | inr todo_data =>
      r <- TodoService.create_todo todo_data ;;
      ret (Returned r)
  end.

(** A call of the service, for walking through histories of the store;
    a listing comes with the engine's order of ties at that moment. *)
Inductive request : Type :=
| CreateTodo (todo_data : TodoCreate.t)
| UpdateTodo (todo_id : Z) (todo_data : TodoUpdate.t)
| ToggleTodoCompletion (todo_id : Z)
| DeleteTodo (todo_id : Z)
| GetAllTodos (rank : Todo.t -> Z)
| GetTodoById (todo_id : Z)
| GetStats.

(** The world after a call. *)
Definition step (r : request) (w : World) : World :=
  match r with
  | CreateTodo d => snd (TodoService.create_todo d w)
  | UpdateTodo i d => snd (TodoService.update_todo i d w)
  | ToggleTodoCompletion i => snd (TodoService.toggle_todo_completion i w)
  | DeleteTodo i => snd (TodoService.delete_todo i w)
  | GetAllTodos rank => snd (TodoService.get_all_todos rank w)
  | GetTodoById i => snd (TodoService.get_todo_by_id i w)
  | GetStats => snd (TodoService.get_stats w)
  end.

(** The world after a sequence of calls, first call first. *)
Definition run (rs : list request) (w : World) : World :=
  fold_left (fun w r => step r w) rs w.

(** The states of the store a history of calls leads to from a reset
    database. *)
Definition reachable (w : World) : Prop :=
  exists c rs, w = run rs (initial c).

(** ** app/todo_ui.py: the form handler *)

(** [str.isspace] on the characters of the first 256 code points. *)
Definition is_space (c : ascii) : bool :=
  let n := nat_of_ascii c in
  ((9 <=? n) && (n <=? 13) || (28 <=? n) && (n <=? 32)
   || (n =? 133) || (n =? 160))%nat.

Fixpoint lstrip_chars (l : list ascii) : list ascii :=
  match l with
  | [] => []
  | c :: l' => if is_space c then lstrip_chars l' else l
  end.

(** [s.strip()] *)
Definition strip (s : string) : string :=
  let front := lstrip_chars (list_ascii_of_string s) in
  string_of_list_ascii (rev (lstrip_chars (rev front))).

(** [ui.notify(message, type=...)], by type. *)
Inductive notification : Type :=
| warning (message : string)
| positive (message : string)
| negative (e : ValidationError).

(** [add_new_todo(title_input, description_input)], on the values of the
    two inputs ([None] for an input never filled in): the notification
    shown.  A title that is empty once stripped is turned away here, with
    a warning and before any request is built. *)
Definition add_new_todo (title_value description_value : option string)
  : M notification :=
  let title := match title_value with
               | Some (String c v) => strip (String c v)
               | _ => ""
               end in
  let description := match description_value with
                     | Some (String c v) => strip (String c v)
                     | _ => ""
                     end in
  match title with
  | "" => ret (warning "Please enter a title for your todo")
  | _ =>
      match TodoCreate.init title (Some description) with
      | inl e => ret (negative e)
      | inr todo_data =>
          _ <- TodoService.create_todo todo_data ;;
          ret (positive "Todo added successfully!")
      end
  end.

(** [s * n] for a string [s] *)
Fixpoint str_mul (s : string) (n : nat) : string :=
  match n with
  | O => ""
  | S n' => s ++ str_mul s n'
  end.

(** ** Predicates on stores and clocks *)

(** Every stored row carries an identifier the table has handed out:
    positive and below the next one. *)
Definition id_assigned (d : Database) (r : Todo.t) : Prop :=
  exists i, Todo.id r = Some i /\ 0 < i < next_id d.

Definition wf_db (d : Database) : Prop :=
  0 < next_id d /\ Forall (id_assigned d) (todos d).

(** No row has primary key [i]. *)
Definition absent (i : Z) (w : World) : Prop :=
  find (Todo.has_id i) (todos (db w)) = None.

(** The key [i] was handed out and its row is no longer there. *)
Definition gone (i : Z) (w : World) : Prop :=
  absent i w /\ i < next_id (db w).

(** A clock that never runs backwards. *)
Definition nondecreasing (c : nat -> Datetime.t) : Prop :=
  forall n, Datetime.le (c n) (c (S n)).

(** [updated_at >= created_at] *)
Definition stamps_ordered (r : Todo.t) : Prop :=
  Datetime.le (Todo.created_at r) (Todo.updated_at r).

(** The row was stamped in the past of the world's next clock reading. *)
Definition stamped_before (w : World) (r : Todo.t) : Prop :=
  Datetime.le (Todo.updated_at r) (clock w (ticks w)).

(** Every stored row has ordered stamps, taken in the past. *)
Definition stamps_inv (w : World) : Prop :=
  Forall (fun r => stamps_ordered r /\ stamped_before w r) (todos (db w)).

(** [a] may stand before [b] in a listing by descending creation time. *)
Definition created_desc (a b : Todo.t) : Prop :=
  Datetime.le (Todo.created_at b) (Todo.created_at a).

(** The response [t] shows the row [r]: every field is the row's, the
    stamps in ISO format, the id [0] for a row without one. *)
Definition shows (r : Todo.t) (t : TodoResponse.t) : Prop :=
  TodoResponse.id t = match Todo.id r with Some i => i | None => 0 end /\
  TodoResponse.title t = Todo.title r /\
  TodoResponse.description t = Todo.description r /\
  TodoResponse.completed t = Todo.completed r /\
  TodoResponse.created_at t = Datetime.isoformat (Todo.created_at r) /\
  TodoResponse.updated_at t = Datetime.isoformat (Todo.updated_at r).

(** [a] may stand before [b] in a listing under the engine order [rank]. *)
Definition listed_before (rank : Todo.t -> Z) (a b : Todo.t) : Prop :=
  Session.behind rank a b = false.

(** The number of rows that satisfy [p]. *)
Definition count (p : Todo.t -> bool) (l : list Todo.t) : Z :=
  Z.of_nat (List.length (filter p l)).

(** ** Sample clocks and histories *)

(** A clock that advances by a microsecond at every reading. *)
Definition ticking_clock (n : nat) : Datetime.t :=
  Datetime.mk 2024 1 2 3 4 5 (Z.of_nat n).

(** A clock too coarse to tell two readings apart. *)
Definition frozen_clock (n : nat) : Datetime.t :=
  Datetime.mk 2024 1 2 3 4 5 0.

(** The scenario of test_get_stats_mixed: three todos, the first two
    toggled. *)
Definition three_todos : World :=
  run [CreateTodo (TodoCreate.mk "Todo 1" "");
       CreateTodo (TodoCreate.mk "Todo 2" "");
       CreateTodo (TodoCreate.mk "Todo 3" "");
       ToggleTodoCompletion 1;
       ToggleTodoCompletion 2]
      (initial ticking_clock).

(** A clock that is set back between readings. *)
Definition backwards_clock (n : nat) : Datetime.t :=
  Datetime.mk 2024 1 2 3 4 5 (500 - Z.of_nat n).

(** One todo created while the clock is set back between the two readings
    [create_todo] takes. *)
Definition set_back_world : World :=
  run [CreateTodo (TodoCreate.mk "Todo" "")] (initial backwards_clock).

(** An engine that holds rows created at the same time in the order they
    were inserted. *)
Definition heap_order : Todo.t -> Z := fun _ => 0.

(** An engine that holds rows created at the same time newest first. *)
Definition newest_first (r : Todo.t) : Z :=
  match Todo.id r with Some i => - i | None => 0 end.

(** Two todos created at one and the same reading of the clock. *)
Definition two_at_once : World :=
  run [CreateTodo (TodoCreate.mk "First Todo" "");
       CreateTodo (TodoCreate.mk "Second Todo" "")]
      (initial frozen_clock).

(** The first row of [three_todos]. *)
Definition todo_1 : Todo.t :=
  Todo.mk (Some 1) "Todo 1" "" true (ticking_clock 0) (ticking_clock 6).

(** The third row of [three_todos]. *)
Definition todo_3 : Todo.t :=
  Todo.mk (Some 3) "Todo 3" "" false (ticking_clock 4) (ticking_clock 5).

(** ** app/todo_ui.py: the handlers of a card *)

Module TodoUi.

(** [toggle_todo_completion(todo_id)]: the notification shown.  The
    [except Exception] branch answers failures of the storage layer. *)
Definition toggle_todo_completion (todo_id : Z) : M notification :=
  result <- TodoService.toggle_todo_completion todo_id ;;
  match result with
  | Some result =>
      let status := if TodoResponse.completed result
                    then "completed" else "reopened" in
      ret (positive ("Todo " ++ status ++ "!"))
  | None => ret (warning "Todo not found")
  end.

(** [delete_todo(todo_id)]: the notification shown. *)
Definition delete_todo (todo_id : Z) : M notification :=
  success <- TodoService.delete_todo todo_id ;;
  if success : bool then ret (warning "Todo deleted!")
  else ret (warning "Todo not found").

(** [s.replace(old, new)] for single characters *)
Fixpoint replace_char (old new : ascii) (s : string) : string :=
  match s with
  | EmptyString => EmptyString
  | String c s' =>
      String (if Ascii.eqb c old then new else c) (replace_char old new s')
  end.

(** The metadata line of [create_todo_item]:
    [f"Created: {todo.created_at[:19].replace('T', ' ')}"]. *)
Definition created_label (todo : TodoResponse.t) : string :=
  "Created: "
  ++ replace_char "T" " " (substring 0 19 (TodoResponse.created_at todo)).

End TodoUi.

(** ** Further predicates *)

(** The value of an input, [""] for one never filled in. *)
Definition value_or_empty (v : option string) : string :=
  match v with Some s => s | None => "" end.

(** Nothing but whitespace. *)
Definition blank (s : string) : bool :=
  forallb is_space (list_ascii_of_string s).

(** The primary keys of the stored rows are pairwise distinct. *)
Definition unique_ids (d : Database) : Prop :=
  NoDup (map Todo.id (todos d)).

(** The two [max_length]s of the models, on a stored row. *)
Definition within_limits (r : Todo.t) : Prop :=
  (String.length (Todo.title r) <= 200 /\
   String.length (Todo.description r) <= 1000)%nat.

(** A call whose request object was built by its validating constructor. *)
Definition validated (r : request) : Prop :=
  match r with
  | CreateTodo d => exists title description,
      TodoCreate.init title description = inr d
  | UpdateTodo _ d => exists title description completed,
      TodoUpdate.init title description completed = inr d
  | _ => True
  end.

(** The request that [d1] followed by [d2] amounts to: a field of [d2]
    where it is present, the field of [d1] otherwise. *)
Definition merge_updates (d1 d2 : TodoUpdate.t) : TodoUpdate.t :=
  TodoUpdate.mk
    (match TodoUpdate.title d2 with Some s => Some s | None => TodoUpdate.title d1 end)
    (match TodoUpdate.description d2 with
     | Some s => Some s
     | None => TodoUpdate.description d1
     end)
    (match TodoUpdate.completed d2 with
     | Some b => Some b
     | None => TodoUpdate.completed d1
     end).

(** The fields of a [datetime] within the ranges the class admits. *)
Definition in_range (d : Datetime.t) : Prop :=
  1 <= Datetime.year d <= 9999 /\ 1 <= Datetime.month d <= 12 /\
  1 <= Datetime.day d <= 31 /\ 0 <= Datetime.hour d <= 23 /\
  0 <= Datetime.minute d <= 59 /\ 0 <= Datetime.second d <= 59 /\
  0 <= Datetime.microsecond d <= 999999.

(** [d.replace(microsecond=0)] *)
Definition to_the_second (d : Datetime.t) : Datetime.t :=
  Datetime.mk (Datetime.year d) (Datetime.month d) (Datetime.day d)
    (Datetime.hour d) (Datetime.minute d) (Datetime.second d) 0.

(** Both stamps of the row are readings of the world's clock, the one in
    [created_at] taken before the one in [updated_at]. *)
Definition stamped_by_clock (w : World) (r : Todo.t) : Prop :=
  exists n m, (n < m < ticks w)%nat /\
    Todo.created_at r = clock w n /\ Todo.updated_at r = clock w m.

(** The key [i] has been handed out, and the row that carries it, if it
    is still there, was created at [c]. *)
Definition keeps_created (i : Z) (c : Datetime.t) (w : World) : Prop :=
  i < next_id (db w) /\
  match find (Todo.has_id i) (todos (db w)) with
  | Some r => Todo.created_at r = c
  | None => True
  end.

(** The microseconds part of [isoformat]. *)
Definition microsecond_suffix (d : Datetime.t) : string :=
  if Datetime.microsecond d =? 0 then ""
  else String "." (Datetime.pad_dec 6 (Datetime.microsecond d)).

(** * Facts *)

(** ** The order on datetimes *)

Module DatetimeFacts.
Import Datetime.

Lemma lex_compare_refl a : lex_compare a a = Eq.
Proof.
  induction a as [|x a IH]; simpl; [reflexivity|].
  now rewrite Z.compare_refl.
Qed.

Lemma lex_compare_eq a : forall b, lex_compare a b = Eq -> a = b.
Proof.
  induction a as [|x a IH]; intros [|y b]; simpl; try discriminate; auto.
  destruct (Z.compare_spec x y); try discriminate.
  intros H'. subst. f_equal. auto.
Qed.

Lemma lex_compare_antisym a : forall b,
  lex_compare b a = CompOpp (lex_compare a b).
Proof.
  induction a as [|x a IH]; intros [|y b]; simpl; auto.
  rewrite (Z.compare_antisym x y).
  destruct (x ?= y); simpl; auto.
Qed.

Lemma lex_compare_le_trans a : forall b c,
  lex_compare a b <> Gt -> lex_compare b c <> Gt -> lex_compare a c <> Gt.
Proof.
  induction a as [|x a IH]; intros [|y b] [|z c]; simpl; try congruence.
  destruct (Z.compare_spec x y), (Z.compare_spec y z), (Z.compare_spec x z);
    subst; try lia; try congruence; eauto.
Qed.

Lemma le_refl d : le d d.
Proof. unfold le, leb, compare. now rewrite lex_compare_refl. Qed.

Lemma le_trans a b c : le a b -> le b c -> le a c.
Proof.
  unfold le, leb, compare. intros Hab Hbc.
  pose proof (lex_compare_le_trans (fields a) (fields b) (fields c)) as T.
  destruct (lex_compare (fields a) (fields b));
    destruct (lex_compare (fields b) (fields c));
    destruct (lex_compare (fields a) (fields c));
    try reflexivity; try discriminate; exfalso; apply T; congruence.
Qed.

(** [not (a < b)] is [b <= a]. *)
Lemma ltb_false_le a b : ltb a b = false -> le b a.
Proof.
  unfold ltb, le, leb, compare.
  rewrite (lex_compare_antisym (fields a) (fields b)).
  destruct (lex_compare (fields a) (fields b)); simpl; congruence.
Qed.

Lemma ltb_true_le a b : ltb a b = true -> le a b.
Proof.
  unfold ltb, le, leb. destruct (compare a b); congruence.
Qed.

(** A datetime equal to [a] is below whatever [a] is strictly below. *)
Lemma eqb_ltb d a b : eqb d a = true -> ltb a b = true -> eqb d b = false.
Proof.
  unfold eqb, ltb, compare. intros Hd Hlt.
  destruct (lex_compare (fields d) (fields a)) eqn:E; try discriminate.
  apply lex_compare_eq in E. rewrite E.
  destruct (lex_compare (fields a) (fields b)); congruence.
Qed.

Lemma nondecreasing_le c : nondecreasing c ->
  forall n m, (n <= m)%nat -> le (c n) (c m).
Proof.
  intros Hc n m Hnm. induction Hnm as [|m Hnm IH].
  - apply le_refl.
  - eapply le_trans; [exact IH | apply Hc].
Qed.

End DatetimeFacts.

(** ** The storage layer *)

Module SessionFacts.
Import Session.

Lemma has_id_inv i r : Todo.has_id i r = true -> Todo.id r = Some i.
Proof.
  unfold Todo.has_id. destruct (Todo.id r) as [j|]; [|discriminate].
  intros H. apply Z.eqb_eq in H. now subst.
Qed.

Lemma has_id_intro i r : Todo.id r = Some i -> Todo.has_id i r = true.
Proof. unfold Todo.has_id. intros ->. apply Z.eqb_refl. Qed.

Lemma find_has_id i l r :
  find (Todo.has_id i) l = Some r -> Todo.id r = Some i /\ In r l.
Proof.
  intros H. apply find_some in H. destruct H as [Hin Hid].
  split; [now apply has_id_inv | exact Hin].
Qed.

(** Overwriting a row keeps its primary key. *)
Lemma replace_id todo r : Todo.id (replace todo r) = Todo.id r.
Proof.
  unfold replace. destruct (Todo.id todo) as [i|] eqn:E; [|reflexivity].
  destruct (Todo.has_id i r) eqn:H; [|reflexivity].
  apply has_id_inv in H. congruence.
Qed.

Lemma has_id_replace j todo r :
  Todo.has_id j (replace todo r) = Todo.has_id j r.
Proof. unfold Todo.has_id. now rewrite replace_id. Qed.

Lemma find_replace_hit i todo l r :
  Todo.id todo = Some i ->
  find (Todo.has_id i) l = Some r ->
  find (Todo.has_id i) (map (replace todo) l) = Some todo.
Proof.
  intros Hid. induction l as [|x l IH]; simpl; [discriminate|].
  rewrite has_id_replace. destruct (Todo.has_id i x) eqn:Hx.
  - intros _. unfold replace. now rewrite Hid, Hx.
  - exact IH.
Qed.

Lemma find_replace_miss j todo l :
  find (Todo.has_id j) l = None ->
  find (Todo.has_id j) (map (replace todo) l) = None.
Proof.
  induction l as [|x l IH]; simpl; [reflexivity|].
  rewrite has_id_replace. destruct (Todo.has_id j x); [discriminate | exact IH].
Qed.

Lemma find_filter_miss j (p : Todo.t -> bool) l :
  find (Todo.has_id j) l = None ->
  find (Todo.has_id j) (filter p l) = None.
Proof.
  induction l as [|x l IH]; simpl; [reflexivity|].
  destruct (Todo.has_id j x) eqn:Hx; [discriminate|].
  intros H. destruct (p x); simpl; [rewrite Hx|]; auto.
Qed.

Lemma find_filter_deleted i l :
  find (Todo.has_id i) (filter (fun r => negb (Todo.has_id i r)) l) = None.
Proof.
  induction l as [|x l IH]; simpl; [reflexivity|].
  destruct (Todo.has_id i x) eqn:Hx; simpl; [exact IH|].
  now rewrite Hx.
Qed.

Lemma find_app_miss j l row :
  find (Todo.has_id j) l = None ->
  Todo.has_id j row = false ->
  find (Todo.has_id j) (l ++ [row])%list = None.
Proof.
  intros Hl Hrow. induction l as [|x l IH]; simpl in *.
  - now rewrite Hrow.
  - destruct (Todo.has_id j x); [discriminate | auto].
Qed.

Lemma id_assigned_mono d d' r :
  next_id d <= next_id d' -> id_assigned d r -> id_assigned d' r.
Proof. intros Hle (i & Hi & Hr). exists i. split; [exact Hi | lia]. Qed.

Lemma id_assigned_replace d todo r :
  id_assigned d r -> id_assigned d (replace todo r).
Proof. unfold id_assigned. now rewrite replace_id. Qed.

(** In a well-formed table no row has a key outside [1 .. next_id - 1]. *)
Lemma wf_db_absent d i :
  wf_db d -> i <= 0 \/ next_id d <= i ->
  find (Todo.has_id i) (todos d) = None.
Proof.
  intros [_ Hall] Hi.
  destruct (find (Todo.has_id i) (todos d)) as [r|] eqn:E; [|reflexivity].
  apply find_has_id in E. destruct E as [Hid Hin].
  rewrite Forall_forall in Hall. destruct (Hall r Hin) as (j & Hj & Hr).
  rewrite Hid in Hj. injection Hj as <-. lia.
Qed.

End SessionFacts.

(** ** Histories *)

(** Unfold a service call down to the world it returns. *)
Ltac unfold_service :=
  unfold TodoService.get_all_todos, TodoService.get_todo_by_id,
    TodoService.create_todo, TodoService.update_todo,
    TodoService.toggle_todo_completion, TodoService.delete_todo,
    TodoService.get_stats, bind, ret, utcnow,
    Session.get, Session.insert, Session.update, Session.delete,
    Session.select_all, Session.select_order_by_desc_created_at, with_db in *.

Lemma run_app rs1 rs2 w : run (rs1 ++ rs2) w = run rs2 (run rs1 w).
Proof. unfold run. apply fold_left_app. Qed.

Lemma run_snoc rs r w : run (rs ++ [r]) w = step r (run rs w).
Proof. now rewrite run_app. Qed.

(** A property of the initial world that every call preserves holds in
    every reachable world. *)
Lemma reachable_ind (P : World -> Prop) :
  (forall c, P (initial c)) ->
  (forall r w, P w -> P (step r w)) ->
  forall w, reachable w -> P w.
Proof.
  intros Hinit Hstep w (c & rs & ->).
  induction rs as [|r rs IH] using rev_ind; [apply Hinit|].
  rewrite run_snoc. now apply Hstep.
Qed.

Lemma reachable_step r w : reachable w -> reachable (step r w).
Proof.
  intros (c & rs & ->). exists c, (rs ++ [r])%list. now rewrite run_snoc.
Qed.

(** The clock itself is never changed by a call. *)
Lemma step_clock r w : clock (step r w) = clock w.
Proof.
  destruct r; simpl; unfold_service; simpl;
    try reflexivity;
    destruct (find (Todo.has_id todo_id) (todos (db w))); reflexivity.
Qed.

(** What a call does to the table. *)
Lemma step_wf r w : wf_db (db w) -> wf_db (db (step r w)).
Proof.
  intros [Hpos Hall].
  destruct r; simpl; unfold_service; simpl;
    try (destruct (find (Todo.has_id todo_id) (todos (db w))) as [row|] eqn:E);
    simpl; try (split; assumption).
  - (* create *)
    split; simpl; [lia|].
    apply Forall_app. split.
    + eapply Forall_impl; [|exact Hall].
      intros r. apply SessionFacts.id_assigned_mono. simpl. lia.
    + constructor; [|constructor].
      exists (next_id (db w)). simpl. split; [reflexivity | lia].
  - (* update *)
    split; simpl; [assumption|].
    apply Forall_map. eapply Forall_impl; [|exact Hall].
    intros r Hr. apply SessionFacts.id_assigned_replace. exact Hr.
  - (* toggle *)
    split; simpl; [assumption|].
    apply Forall_map. eapply Forall_impl; [|exact Hall].
    intros r Hr. apply SessionFacts.id_assigned_replace. exact Hr.
  - (* delete *)
    split; simpl; [assumption|].
    apply Forall_forall. intros r Hr. apply filter_In in Hr.
    rewrite Forall_forall in Hall. now apply Hall.
Qed.

Lemma reachable_wf w : reachable w -> wf_db (db w).
Proof.
  revert w. apply (reachable_ind (fun w => wf_db (db w))).
  - intros c. split; simpl; [lia | constructor].
  - intros r w'. apply step_wf.
Qed.

(** ** Looking a row up *)

Lemma absent_iff i w :
  absent i w <-> forall r, In r (todos (db w)) -> Todo.id r <> Some i.
Proof.
  unfold absent. split.
  - intros H r Hin Hid.
    apply (find_none _ _ H) in Hin.
    now rewrite (SessionFacts.has_id_intro _ _ Hid) in Hin.
  - intros H. destruct (find (Todo.has_id i) (todos (db w))) as [r|] eqn:E;
      [|reflexivity].
    apply SessionFacts.find_has_id in E. destruct E as [Hid Hin].
    now destruct (H r Hin).
Qed.

Lemma present_iff i w :
  (exists r, In r (todos (db w)) /\ Todo.id r = Some i) <-> ~ absent i w.
Proof.
  rewrite absent_iff. split.
  - intros (r & Hin & Hid) H. exact (H r Hin Hid).
  - intros H. destruct (find (Todo.has_id i) (todos (db w))) as [r|] eqn:E.
    + apply SessionFacts.find_has_id in E. destruct E as [Hid Hin]. eauto.
    + destruct H. now apply absent_iff.
Qed.

(** In a reachable world the key 0 has never been handed out. *)
Lemma reachable_absent_0 w : reachable w -> absent 0 w.
Proof.
  intros H. apply SessionFacts.wf_db_absent; [now apply reachable_wf | lia].
Qed.

(** ** The not-found paths *)

Lemma get_todo_by_id_none i w :
  absent i w -> TodoService.get_todo_by_id i w = (None, w).
Proof. unfold absent. intros H. unfold_service. now rewrite H. Qed.

Lemma update_todo_none i d w :
  absent i w -> TodoService.update_todo i d w = (None, w).
Proof. unfold absent. intros H. unfold_service. now rewrite H. Qed.

Lemma toggle_todo_completion_none i w :
  absent i w -> TodoService.toggle_todo_completion i w = (None, w).
Proof. unfold absent. intros H. unfold_service. now rewrite H. Qed.

Lemma delete_todo_none i w :
  absent i w -> TodoService.delete_todo i w = (false, w).
Proof. unfold absent. intros H. unfold_service. now rewrite H. Qed.

(** ** The found paths *)

(** The row [update_todo] writes back for a stored row [r]. *)
Lemma update_todo_found i d w r :
  find (Todo.has_id i) (todos (db w)) = Some r ->
  let r' := Todo.set_updated_at (clock w (ticks w)) (TodoService.apply_fields d r) in
  TodoService.update_todo i d w =
    (Some (TodoResponse.from_todo r'),
     mkWorld (mkDatabase (map (Session.replace r') (todos (db w))) (next_id (db w)))
             (clock w) (S (ticks w))).
Proof.
  intros H r'. unfold_service. rewrite H. simpl.
  assert (Hid : Todo.id r' = Some i).
  { apply SessionFacts.find_has_id in H. destruct H as [Hid _].
    unfold r', TodoService.apply_fields.
    destruct (TodoUpdate.title d), (TodoUpdate.description d),
      (TodoUpdate.completed d); exact Hid. }
  pose proof Hid as Hid'. unfold r' in Hid'. simpl in Hid'. rewrite Hid'.
  fold r'. now rewrite (SessionFacts.find_replace_hit i r' _ r Hid H).
Qed.

(** The row [toggle_todo_completion] writes back for a stored row [r]. *)
Lemma toggle_todo_completion_found i w r :
  find (Todo.has_id i) (todos (db w)) = Some r ->
  let r' := Todo.set_updated_at (clock w (ticks w))
              (Todo.set_completed (negb (Todo.completed r)) r) in
  TodoService.toggle_todo_completion i w =
    (Some (TodoResponse.from_todo r'),
     mkWorld (mkDatabase (map (Session.replace r') (todos (db w))) (next_id (db w)))
             (clock w) (S (ticks w))).
Proof.
  intros H r'. unfold_service. rewrite H. simpl.
  assert (Hid : Todo.id r' = Some i).
  { apply SessionFacts.find_has_id in H. now destruct H as [Hid _]. }
  pose proof Hid as Hid'. unfold r' in Hid'. simpl in Hid'. rewrite Hid'.
  fold r'. now rewrite (SessionFacts.find_replace_hit i r' _ r Hid H).
Qed.

Lemma delete_todo_found i w r :
  find (Todo.has_id i) (todos (db w)) = Some r ->
  TodoService.delete_todo i w =
    (true,
     mkWorld (mkDatabase (filter (fun x => negb (Todo.has_id i x)) (todos (db w)))
                         (next_id (db w)))
             (clock w) (ticks w)).
Proof.
  intros H. unfold_service. rewrite H. simpl.
  apply SessionFacts.find_has_id in H. destruct H as [Hid _].
  now rewrite Hid.
Qed.

(** ** Keys that are gone stay gone *)

Lemma step_gone i r w : gone i w -> gone i (step r w).
Proof.
  unfold gone, absent. intros [Habs Hlt].
  destruct r; simpl; unfold_service; simpl;
    try (destruct (find (Todo.has_id todo_id) (todos (db w))) as [row|] eqn:E);
    simpl; try (split; assumption).
  - split; [|lia].
    apply SessionFacts.find_app_miss; [exact Habs|].
    unfold Todo.has_id. simpl. apply Z.eqb_neq. lia.
  - split; [|exact Hlt]. now apply SessionFacts.find_replace_miss.
  - split; [|exact Hlt]. now apply SessionFacts.find_replace_miss.
  - split; [|exact Hlt]. now apply SessionFacts.find_filter_miss.
Qed.

Lemma run_gone i rs : forall w, gone i w -> gone i (run rs w).
Proof.
  induction rs as [|r rs IH]; intros w H; [exact H|].
  simpl. apply IH. now apply step_gone.
Qed.

Lemma find_replace_other i j todo l :
  Todo.id todo = Some i -> j <> i ->
  find (Todo.has_id j) (map (Session.replace todo) l) = find (Todo.has_id j) l.
Proof.
  intros Hid Hne. induction l as [|x l IH]; simpl; [reflexivity|].
  rewrite SessionFacts.has_id_replace.
  destruct (Todo.has_id j x) eqn:Hx; [|exact IH].
  unfold Session.replace. rewrite Hid.
  destruct (Todo.has_id i x) eqn:Hi; [|reflexivity].
  apply SessionFacts.has_id_inv in Hx, Hi. congruence.
Qed.

(** * The claims *)

(** C10. For an id with no matching record, [update_todo] and
    [toggle_todo_completion] return [None] and [delete_todo] returns
    [False], and each leaves the whole world as it was: the table, the
    identifier counter, and the clock, which is not even read. *)
Theorem not_found_changes_nothing
  (i : Z) (d : TodoUpdate.t) (w : World) (H : absent i w) :
  TodoService.update_todo i d w = (None, w) /\
  TodoService.toggle_todo_completion i w = (None, w) /\
  TodoService.delete_todo i w = (false, w).
Proof.
  repeat split.
  - now apply update_todo_none.
  - now apply toggle_todo_completion_none.
  - now apply delete_todo_none.
Qed.

Lemma not_found_changes_nothing_witness :
  absent 999 three_todos /\
  (TodoService.update_todo 999 (TodoUpdate.mk (Some "Updated") None None) three_todos
     = (None, three_todos) /\
   TodoService.toggle_todo_completion 999 three_todos = (None, three_todos) /\
   TodoService.delete_todo 999 three_todos = (false, three_todos)).
Proof.
  split; [reflexivity|].
  apply (not_found_changes_nothing 999
           (TodoUpdate.mk (Some "Updated") None None) three_todos).
  reflexivity.
Defined.

(** C8. [get_todo_by_id] returns [None], and changes nothing, for every id
    that has no matching record; the id 0 is such an id in every reachable
    store and is handled by the same path. *)
Theorem get_todo_by_id_absent
  (i : Z) (w : World) (H : absent i w \/ (i = 0 /\ reachable w)) :
  TodoService.get_todo_by_id i w = (None, w).
Proof.
  apply get_todo_by_id_none.
  destruct H as [H | [-> H]]; [exact H | now apply reachable_absent_0].
Qed.

Lemma get_todo_by_id_absent_witness :
  (absent 0 three_todos \/ (0 = 0 /\ reachable three_todos)) /\
  TodoService.get_todo_by_id 0 three_todos = (None, three_todos).
Proof.
  assert (H : absent 0 three_todos \/ (0 = 0 /\ reachable three_todos)).
  { left. reflexivity. }
  split; [exact H|].
  exact (get_todo_by_id_absent 0 three_todos H).
Defined.

(** C6. [delete_todo] returns [True] exactly when a row with the id is
    stored, and then removes it; it returns [False], changing nothing,
    when there is none.  After a successful delete, [get_todo_by_id] on
    the id returns [None], and so it stays whatever calls follow: every
    later [delete_todo] of the id returns [False]. *)
Theorem delete_todo_once (i : Z) (w : World) (Hw : reachable w) :
  let (deleted, w') := TodoService.delete_todo i w in
  (deleted = true <-> exists r, In r (todos (db w)) /\ Todo.id r = Some i) /\
  (deleted = false -> w' = w) /\
  (deleted = true ->
     todos (db w') = filter (fun r => negb (Todo.has_id i r)) (todos (db w)) /\
     TodoService.get_todo_by_id i w' = (None, w') /\
     forall rs,
       fst (TodoService.get_todo_by_id i (run rs w')) = None /\
       fst (TodoService.delete_todo i (run rs w')) = false).
Proof.
  destruct (find (Todo.has_id i) (todos (db w))) as [r|] eqn:E.
  - rewrite (delete_todo_found i w r E).
    set (w' := mkWorld _ _ _).
    assert (Hgone : gone i w').
    { split.
      - unfold absent, w'. simpl. apply SessionFacts.find_filter_deleted.
      - unfold w'. simpl.
        pose proof (reachable_wf w Hw) as [_ Hall].
        apply SessionFacts.find_has_id in E. destruct E as [Hid Hin].
        rewrite Forall_forall in Hall. destruct (Hall r Hin) as (j & Hj & Hr).
        rewrite Hid in Hj. injection Hj as <-. lia. }
    split; [|split].
    + split; [intros _ | reflexivity].
      apply present_iff. unfold absent. now rewrite E.
    + discriminate.
    + intros _. split; [reflexivity|]. split.
      * apply get_todo_by_id_none. apply Hgone.
      * intros rs. destruct (run_gone i rs w' Hgone) as [Habs _].
        rewrite (get_todo_by_id_none _ _ Habs), (delete_todo_none _ _ Habs).
        split; reflexivity.
  - rewrite (delete_todo_none i w E).
    split; [|split].
    + split; [discriminate|].
      intros H. apply present_iff in H. now destruct H.
    + reflexivity.
    + discriminate.
Qed.

Lemma delete_todo_once_witness :
  reachable three_todos /\
  let (deleted, w') := TodoService.delete_todo 3 three_todos in
  (deleted = true <->
     exists r, In r (todos (db three_todos)) /\ Todo.id r = Some 3) /\
  (deleted = false -> w' = three_todos) /\
  (deleted = true ->
     todos (db w') =
       filter (fun r => negb (Todo.has_id 3 r)) (todos (db three_todos)) /\
     TodoService.get_todo_by_id 3 w' = (None, w') /\
     forall rs,
       fst (TodoService.get_todo_by_id 3 (run rs w')) = None /\
       fst (TodoService.delete_todo 3 (run rs w')) = false).
Proof.
  assert (H : reachable three_todos).
  { eexists ticking_clock, _. reflexivity. }
  split; [exact H|].
  exact (delete_todo_once 3 three_todos H).
Defined.

(** C5. For a stored id, two consecutive calls of
    [toggle_todo_completion] bring [completed] back to the value it had
    before the first: the first call returns and stores its negation, the
    second the value itself.  Each call stamps [updated_at] with its own
    clock reading, so [updated_at] ends at the second reading, not at its
    old value; [created_at] is not touched. *)
Theorem toggle_twice_restores_completed
  (i : Z) (w : World) (r : Todo.t)
  (H : find (Todo.has_id i) (todos (db w)) = Some r) :
  let (r1, w1) := TodoService.toggle_todo_completion i w in
  let (r2, w2) := TodoService.toggle_todo_completion i w1 in
  exists t1 t2,
    r1 = Some (TodoResponse.from_todo t1) /\
    r2 = Some (TodoResponse.from_todo t2) /\
    find (Todo.has_id i) (todos (db w1)) = Some t1 /\
    find (Todo.has_id i) (todos (db w2)) = Some t2 /\
    Todo.completed t1 = negb (Todo.completed r) /\
    Todo.completed t2 = Todo.completed r /\
    Todo.updated_at t1 = clock w (ticks w) /\
    Todo.updated_at t2 = clock w (S (ticks w)) /\
    Todo.created_at t2 = Todo.created_at r.
Proof.
  pose proof (SessionFacts.find_has_id _ _ _ H) as [Hid _].
  rewrite (toggle_todo_completion_found i w r H).
  set (t1 := Todo.set_updated_at _ _).
  set (w1 := mkWorld _ _ _).
  assert (H1 : find (Todo.has_id i) (todos (db w1)) = Some t1).
  { unfold w1. simpl. now apply (SessionFacts.find_replace_hit i t1 _ r). }
  rewrite (toggle_todo_completion_found i w1 t1 H1).
  set (t2 := Todo.set_updated_at _ _).
  exists t1, t2. repeat split; try reflexivity.
  - exact H1.
  - simpl. now apply (SessionFacts.find_replace_hit i t2 _ t1).
  - simpl. apply negb_involutive.
Qed.

Lemma toggle_twice_restores_completed_witness :
  find (Todo.has_id 3) (todos (db three_todos)) = Some todo_3 /\
  let (r1, w1) := TodoService.toggle_todo_completion 3 three_todos in
  let (r2, w2) := TodoService.toggle_todo_completion 3 w1 in
  exists t1 t2,
    r1 = Some (TodoResponse.from_todo t1) /\
    r2 = Some (TodoResponse.from_todo t2) /\
    find (Todo.has_id 3) (todos (db w1)) = Some t1 /\
    find (Todo.has_id 3) (todos (db w2)) = Some t2 /\
    Todo.completed t1 = negb (Todo.completed todo_3) /\
    Todo.completed t2 = Todo.completed todo_3 /\
    Todo.updated_at t1 = clock three_todos (ticks three_todos) /\
    Todo.updated_at t2 = clock three_todos (S (ticks three_todos)) /\
    Todo.created_at t2 = Todo.created_at todo_3.
Proof.
  assert (H : find (Todo.has_id 3) (todos (db three_todos)) = Some todo_3).
  { reflexivity. }
  split; [exact H|].
  exact (toggle_twice_restores_completed 3 three_todos todo_3 H).
Defined.

(** C2. For a stored id, [update_todo] writes back the row with exactly
    the fields present in the request replaced (a field that is [None]
    keeps its prior value; the id and [created_at] are kept), with
    [updated_at] set to the clock reading of the call, and leaves the
    rows with other ids alone.  The response it returns carries the id
    asked for, the title, description and completion flag of the request
    where it gives them and of the prior row where it does not, the
    prior [created_at] and the clock reading of the call as [updated_at],
    both in ISO format.  For an id with no matching record it returns
    [None]. *)
Theorem update_todo_applies_present_fields
  (i : Z) (d : TodoUpdate.t) (w : World) :
  let (res, w') := TodoService.update_todo i d w in
  match find (Todo.has_id i) (todos (db w)) with
  | Some r =>
      exists r' t,
        res = Some t /\
        (TodoResponse.id t = i /\
         TodoResponse.title t =
           match TodoUpdate.title d with Some s => s | None => Todo.title r end /\
         TodoResponse.description t =
           match TodoUpdate.description d with
           | Some s => s
           | None => Todo.description r
           end /\
         TodoResponse.completed t =
           match TodoUpdate.completed d with
           | Some b => b
           | None => Todo.completed r
           end /\
         TodoResponse.created_at t = Datetime.isoformat (Todo.created_at r) /\
         TodoResponse.updated_at t = Datetime.isoformat (clock w (ticks w))) /\
        find (Todo.has_id i) (todos (db w')) = Some r' /\
        Todo.id r' = Some i /\
        Todo.title r' =
          match TodoUpdate.title d with Some s => s | None => Todo.title r end /\
        Todo.description r' =
          match TodoUpdate.description d with
          | Some s => s
          | None => Todo.description r
          end /\
        Todo.completed r' =
          match TodoUpdate.completed d with
          | Some b => b
          | None => Todo.completed r
          end /\
        Todo.created_at r' = Todo.created_at r /\
        Todo.updated_at r' = clock w (ticks w) /\
        (forall j, j <> i ->
           find (Todo.has_id j) (todos (db w')) =
           find (Todo.has_id j) (todos (db w)))
  | None => res = None /\ w' = w
  end.
Proof.
  destruct (find (Todo.has_id i) (todos (db w))) as [r|] eqn:E.
  - rewrite (update_todo_found i d w r E).
    set (r' := Todo.set_updated_at _ _).
    pose proof (SessionFacts.find_has_id _ _ _ E) as [Hid _].
    assert (Hid' : Todo.id r' = Some i).
    { unfold r', TodoService.apply_fields.
      destruct (TodoUpdate.title d), (TodoUpdate.description d),
        (TodoUpdate.completed d); exact Hid. }
    assert (Hrow :
      Todo.title r' =
        match TodoUpdate.title d with Some s => s | None => Todo.title r end /\
      Todo.description r' =
        match TodoUpdate.description d with
        | Some s => s
        | None => Todo.description r
        end /\
      Todo.completed r' =
        match TodoUpdate.completed d with
        | Some b => b
        | None => Todo.completed r
        end /\
      Todo.created_at r' = Todo.created_at r /\
      Todo.updated_at r' = clock w (ticks w)).
    { unfold r', TodoService.apply_fields.
      destruct (TodoUpdate.title d), (TodoUpdate.description d),
        (TodoUpdate.completed d); repeat split. }
    destruct Hrow as (Ht & Hd & Hc & Hcr & Hup).
    exists r', (TodoResponse.from_todo r').
    split; [reflexivity|]. split.
    { cbn [TodoResponse.from_todo TodoResponse.id TodoResponse.title
           TodoResponse.description TodoResponse.completed
           TodoResponse.created_at TodoResponse.updated_at].
      rewrite Hid', Ht, Hd, Hc, Hcr, Hup.
      split; [|repeat split].
      unfold TodoResponse.id_or_0. destruct (Z.eqb_spec i 0); congruence. }
    split.
    { simpl. now apply (SessionFacts.find_replace_hit i r' _ r). }
    split; [exact Hid'|].
    split; [exact Ht|]. split; [exact Hd|]. split; [exact Hc|].
    split; [exact Hcr|]. split; [exact Hup|].
    intros j Hj. simpl. now apply (find_replace_other i j).
  - rewrite (update_todo_none i d w E). split; reflexivity.
Qed.

(** ** Counting *)

Lemma fold_left_add_ones {A} (l : list A) acc :
  fold_left Z.add (map (fun _ => 1) l) acc = acc + Z.of_nat (List.length l).
Proof.
  revert acc. induction l as [|x l IH]; intros acc; simpl List.length.
  - simpl. lia.
  - simpl fold_left. rewrite IH. lia.
Qed.

Lemma sum_ones {A} (l : list A) :
  sum (map (fun _ => 1) l) = Z.of_nat (List.length l).
Proof. unfold sum. now rewrite fold_left_add_ones. Qed.

Lemma count_split (p : Todo.t -> bool) l :
  count p l + count (fun r => negb (p r)) l = Z.of_nat (List.length l).
Proof.
  unfold count. induction l as [|x l IH]; [reflexivity|].
  simpl. destruct (p x); simpl List.length; lia.
Qed.

(** C7. [get_stats] reads the whole table and changes nothing; its dict
    holds [total], the number of rows, [completed], the number of
    completed rows, and [pending], the number of the others, so that
    [total = completed + pending]; on an empty table all three are 0. *)
Theorem get_stats_total_is_completed_plus_pending (w : World) :
  let (stats, w') := TodoService.get_stats w in
  w' = w /\
  exists total completed pending,
    stats = [("total", total); ("completed", completed); ("pending", pending)] /\
    total = completed + pending /\
    total = Z.of_nat (List.length (todos (db w))) /\
    completed = count Todo.completed (todos (db w)) /\
    pending = count (fun r => negb (Todo.completed r)) (todos (db w)) /\
    fst (TodoService.get_stats (with_db (mkDatabase [] (next_id (db w))) w))
      = [("total", 0); ("completed", 0); ("pending", 0)].
Proof.
  unfold_service. split; [reflexivity|].
  do 3 eexists. split; [reflexivity|].
  rewrite sum_ones. fold (count Todo.completed (todos (db w))).
  pose proof (count_split Todo.completed (todos (db w))) as Hs.
  repeat split; try reflexivity; lia.
Qed.

(** ** Building a request *)

Lemma create_spec title description w :
  let d := match description with Some d => d | None => "" end in
  if ((200 <? String.length title) || (1000 <? String.length d))%nat
  then exists e, create title description w = (Raised e, w)
  else create title description w =
         (Returned (fst (TodoService.create_todo (TodoCreate.mk title d) w)),
          snd (TodoService.create_todo (TodoCreate.mk title d) w)).
Proof.
  intros d. unfold create, TodoCreate.init, too_long,
    TodoCreate.title_max_length, TodoCreate.description_max_length.
  fold d.
  destruct (200 <? String.length title)%nat; simpl.
  - eexists. reflexivity.
  - destruct (1000 <? String.length d)%nat; simpl.
    + eexists. reflexivity.
    + reflexivity.
Qed.

Lemma length_str_mul_1 c n : String.length (str_mul (String c "") n) = n.
Proof. induction n as [|n IH]; simpl; congruence. Qed.

(** The form handler turns a blank title away with a warning. *)
Example add_new_todo_blank_title w :
  add_new_todo (Some "   ") (Some "text") w
  = (warning "Please enter a title for your todo", w).
Proof. reflexivity. Qed.

(** C1, as stated, fails: a request whose title is empty (and so empty
    after trimming) passes validation, and [create_todo] stores it. *)
Lemma create_accepts_empty_title :
  strip "" = "" /\
  fst (create "" None (initial ticking_clock))
    = Returned (TodoResponse.mk 1 "" "" false
                  "2024-01-02T03:04:05" "2024-01-02T03:04:05.000001") /\
  todos (db (snd (create "" None (initial ticking_clock))))
    = [Todo.mk (Some 1) "" "" false (ticking_clock 0) (ticking_clock 1)].
Proof. repeat split; reflexivity. Qed.

(** C1, amended. Creating a todo from a title and a description raises
    [ValidationError], with the store untouched, exactly when the title is
    longer than 200 characters or the description longer than 1000; every
    other request, whatever its title, is stored as given.  A title of
    200 characters with a description of 1000 is accepted, 201 and 1001
    are rejected. *)
Theorem create_rejects_exactly_overlong_fields
  (title : string) (description : option string) (w : World) :
  let d := match description with Some d => d | None => "" end in
  match create title description w with
  | (Raised e, w') =>
      w' = w /\ (200 < String.length title \/ 1000 < String.length d)%nat
  | (Returned resp, w') =>
      (String.length title <= 200)%nat /\ (String.length d <= 1000)%nat /\
      TodoResponse.title resp = title /\ TodoResponse.description resp = d /\
      exists row,
        todos (db w') = (todos (db w) ++ [row])%list /\
        Todo.title row = title /\ Todo.description row = d
  end /\
  (exists resp,
     fst (create (str_mul "A" 200) (Some (str_mul "B" 1000)) w) = Returned resp) /\
  (exists e, create (str_mul "A" 201) None w = (Raised e, w)) /\
  (exists e, create "Test" (Some (str_mul "B" 1001)) w = (Raised e, w)).
Proof.
  intros d. split; [|split; [|split]].
  - pose proof (create_spec title description w) as H.
    cbv beta iota zeta in H. fold d in H.
    destruct (Nat.ltb_spec 200 (String.length title)) as [Ht|Ht];
      destruct (Nat.ltb_spec 1000 (String.length d)) as [Hd|Hd];
      cbn [orb] in H.
    1-3: destruct H as [e He]; rewrite He; split; [reflexivity | lia].
    rewrite H. repeat split; try assumption.
    eexists. repeat split.
  - pose proof (create_spec (str_mul "A" 200) (Some (str_mul "B" 1000)) w) as H.
    cbv beta iota zeta in H. rewrite !length_str_mul_1 in H.
    rewrite !Nat.ltb_irrefl in H. cbn [orb] in H. rewrite H. eexists. reflexivity.
  - pose proof (create_spec (str_mul "A" 201) None w) as H.
    cbv beta iota zeta in H. rewrite length_str_mul_1 in H.
    replace (200 <? 201)%nat with true in H by (symmetry; apply Nat.ltb_lt; lia).
    exact H.
  - pose proof (create_spec "Test" (Some (str_mul "B" 1001)) w) as H.
    cbv beta iota zeta in H. rewrite length_str_mul_1 in H.
    replace (1000 <? 1001)%nat with true in H by (symmetry; apply Nat.ltb_lt; lia).
    rewrite orb_true_r in H. exact H.
Qed.

(** C3, as stated, fails: the two timestamps come from two readings of
    the clock, and a clock that moves between them gives a response whose
    [created_at] and [updated_at] differ. *)
Lemma create_todo_timestamps_differ :
  let resp := fst (TodoService.create_todo
                     (TodoCreate.mk "Test Todo" "Test description")
                     (initial ticking_clock)) in
  TodoResponse.created_at resp = "2024-01-02T03:04:05" /\
  TodoResponse.updated_at resp = "2024-01-02T03:04:05.000001" /\
  TodoResponse.created_at resp <> TodoResponse.updated_at resp.
Proof.
  cbv zeta. split; [reflexivity | split; [reflexivity | discriminate]].
Qed.

(** C3, amended. In a reachable store, [create_todo] returns a response
    with [id > 0] (the key the table hands out) and [completed] false,
    whose [created_at] and [updated_at] render two successive readings of
    the clock, [created_at] the first; the row is stored with these same
    values. *)
Theorem create_todo_response
  (d : TodoCreate.t) (w : World) (Hw : reachable w) :
  let (resp, w') := TodoService.create_todo d w in
  0 < TodoResponse.id resp /\
  TodoResponse.id resp = next_id (db w) /\
  TodoResponse.completed resp = false /\
  TodoResponse.created_at resp = Datetime.isoformat (clock w (ticks w)) /\
  TodoResponse.updated_at resp = Datetime.isoformat (clock w (S (ticks w))) /\
  exists row,
    todos (db w') = (todos (db w) ++ [row])%list /\
    resp = TodoResponse.from_todo row /\
    Todo.id row = Some (TodoResponse.id resp) /\
    Todo.completed row = false /\
    Todo.created_at row = clock w (ticks w) /\
    Todo.updated_at row = clock w (S (ticks w)).
Proof.
  pose proof (reachable_wf w Hw) as [Hpos _].
  unfold_service. cbn.
  assert (Hid : (if next_id (db w) =? 0 then 0 else next_id (db w)) = next_id (db w)).
  { destruct (Z.eqb_spec (next_id (db w)) 0); lia. }
  rewrite Hid.
  split; [exact Hpos|]. do 4 (split; [reflexivity|]).
  eexists. split; [reflexivity|]. cbn. rewrite ?Hid. repeat split.
Qed.

Lemma create_todo_response_witness :
  reachable three_todos /\
  let (resp, w') :=
    TodoService.create_todo (TodoCreate.mk "Test Todo" "Test description")
      three_todos in
  0 < TodoResponse.id resp /\
  TodoResponse.id resp = next_id (db three_todos) /\
  TodoResponse.completed resp = false /\
  TodoResponse.created_at resp
    = Datetime.isoformat (clock three_todos (ticks three_todos)) /\
  TodoResponse.updated_at resp
    = Datetime.isoformat (clock three_todos (S (ticks three_todos))) /\
  exists row,
    todos (db w') = (todos (db three_todos) ++ [row])%list /\
    resp = TodoResponse.from_todo row /\
    Todo.id row = Some (TodoResponse.id resp) /\
    Todo.completed row = false /\
    Todo.created_at row = clock three_todos (ticks three_todos) /\
    Todo.updated_at row = clock three_todos (S (ticks three_todos)).
Proof.
  assert (H : reachable three_todos).
  { eexists ticking_clock, _. reflexivity. }
  split; [exact H|].
  exact (create_todo_response
           (TodoCreate.mk "Test Todo" "Test description") three_todos H).
Defined.

(** ** Timestamps *)

Section Stamps.
Variable w : World.
Hypothesis Hclock : nondecreasing (clock w).

Lemma now_le_later n : (ticks w <= n)%nat -> Datetime.le (clock w (ticks w)) (clock w n).
Proof. apply DatetimeFacts.nondecreasing_le. exact Hclock. Qed.

(** A row stamped in the past stays so when the clock is read again. *)
Lemma stamped_before_later r n :
  (ticks w <= n)%nat -> stamped_before w r ->
  Datetime.le (Todo.updated_at r) (clock w n).
Proof.
  intros Hn Hr. eapply DatetimeFacts.le_trans; [exact Hr | now apply now_le_later].
Qed.

(** Writing back a row of the table with a fresh stamp keeps the
    invariant, under the clock read once more. *)
Lemma stamps_inv_restamp (f : Todo.t -> Todo.t) i r :
  (forall x, Todo.created_at (f x) = Todo.created_at x) ->
  find (Todo.has_id i) (todos (db w)) = Some r ->
  stamps_inv w ->
  let r' := Todo.set_updated_at (clock w (ticks w)) (f r) in
  stamps_inv (mkWorld (mkDatabase (map (Session.replace r') (todos (db w)))
                                  (next_id (db w)))
                      (clock w) (S (ticks w))).
Proof.
  intros Hf Hfind Hinv r'. unfold stamps_inv in *. simpl.
  apply SessionFacts.find_has_id in Hfind. destruct Hfind as [_ Hin].
  rewrite Forall_forall in Hinv.
  destruct (Hinv r Hin) as [Hord Hpast].
  apply Forall_map, Forall_forall. intros x Hx.
  destruct (Hinv x Hx) as [Hxo Hxp].
  unfold stamped_before, stamps_ordered in *. simpl.
  assert (Hr' : Datetime.le (Todo.created_at r') (Todo.updated_at r') /\
                Datetime.le (Todo.updated_at r') (clock w (S (ticks w)))).
  { unfold r'. simpl. rewrite Hf. split.
    - eapply DatetimeFacts.le_trans; [exact Hord | exact Hpast].
    - apply Hclock. }
  unfold Session.replace.
  destruct (Todo.id r') as [j|].
  - destruct (Todo.has_id j x); [exact Hr'|].
    split; [exact Hxo | apply stamped_before_later; [lia | exact Hxp]].
  - split; [exact Hxo | apply stamped_before_later; [lia | exact Hxp]].
Qed.

Lemma step_stamps_inv r : stamps_inv w -> stamps_inv (step r w).
Proof.
  intros Hinv.
  destruct r; simpl; unfold_service; simpl;
    try (destruct (find (Todo.has_id todo_id) (todos (db w))) as [row|] eqn:E);
    simpl; try exact Hinv.
  - (* create *)
    unfold stamps_inv in *. simpl. apply Forall_app. split.
    + eapply Forall_impl; [|exact Hinv]. intros x [Hxo Hxp].
      split; [exact Hxo|]. unfold stamped_before. simpl.
      apply stamped_before_later; [lia | exact Hxp].
    + constructor; [|constructor].
      unfold stamps_ordered, stamped_before. simpl.
      split; apply Hclock.
  - (* update *)
    apply (stamps_inv_restamp (TodoService.apply_fields todo_data) todo_id row);
      [|exact E|exact Hinv].
    intros x. unfold TodoService.apply_fields.
    destruct (TodoUpdate.title todo_data), (TodoUpdate.description todo_data),
      (TodoUpdate.completed todo_data); reflexivity.
  - (* toggle *)
    apply (stamps_inv_restamp
             (fun x => Todo.set_completed (negb (Todo.completed x)) x)
             todo_id row); [|exact E|exact Hinv].
    reflexivity.
  - (* delete *)
    unfold stamps_inv in *. simpl.
    apply Forall_forall. intros x Hx. apply filter_In in Hx.
    rewrite Forall_forall in Hinv. now apply Hinv.
Qed.

End Stamps.

Lemma reachable_stamps_inv w :
  reachable w -> nondecreasing (clock w) -> stamps_inv w.
Proof.
  revert w.
  apply (reachable_ind (fun w => nondecreasing (clock w) -> stamps_inv w)).
  - intros c _. constructor.
  - intros r w IH Hc. rewrite step_clock in Hc.
    apply step_stamps_inv; auto.
Qed.

Lemma ticking_clock_nondecreasing : nondecreasing ticking_clock.
Proof.
  intros n. unfold Datetime.le, Datetime.leb, Datetime.compare, ticking_clock.
  cbn [Datetime.fields Datetime.lex_compare Datetime.year Datetime.month
       Datetime.day Datetime.hour Datetime.minute Datetime.second
       Datetime.microsecond].
  rewrite !Z.compare_refl.
  destruct (Z.compare_spec (Z.of_nat n) (Z.of_nat (S n))); try reflexivity; lia.
Qed.

(** C9, as stated, fails: [create_todo] reads the clock twice, first for
    [created_at] and then for [updated_at], and nothing it does keeps the
    second reading from being the earlier one.  On a clock set back
    between the two readings the row it stores has
    [updated_at < created_at]. *)
Lemma create_todo_on_clock_set_back :
  reachable set_back_world /\
  exists r,
    todos (db set_back_world) = [r] /\
    Todo.created_at r = backwards_clock 0 /\
    Todo.updated_at r = backwards_clock 1 /\
    Datetime.ltb (Todo.updated_at r) (Todo.created_at r) = true /\
    ~ stamps_ordered r.
Proof.
  split.
  - exists backwards_clock, [CreateTodo (TodoCreate.mk "Todo" "")].
    reflexivity.
  - eexists. split; [reflexivity|].
    split; [reflexivity|]. split; [reflexivity|]. split; [reflexivity|].
    unfold stamps_ordered, Datetime.le. vm_compute. discriminate.
Qed.

(** C9, amended. On a clock that never runs backwards, every row of every reachable
    store has [updated_at >= created_at].  [create_todo] establishes it for
    the row it adds; [update_todo] and [toggle_todo_completion] keep it for
    the row they write back, whose [created_at] is the old one and whose
    [updated_at] is the clock reading of the call. *)
Theorem updated_at_never_before_created_at
  (w : World) (Hw : reachable w) (Hc : nondecreasing (clock w)) :
  Forall stamps_ordered (todos (db w)) /\
  (forall d, exists row,
     todos (db (step (CreateTodo d) w)) = (todos (db w) ++ [row])%list /\
     stamps_ordered row) /\
  (forall i d r,
     find (Todo.has_id i) (todos (db w)) = Some r ->
     exists r',
       find (Todo.has_id i) (todos (db (step (UpdateTodo i d) w))) = Some r' /\
       Todo.created_at r' = Todo.created_at r /\
       Todo.updated_at r' = clock w (ticks w) /\
       stamps_ordered r') /\
  (forall i r,
     find (Todo.has_id i) (todos (db w)) = Some r ->
     exists r',
       find (Todo.has_id i) (todos (db (step (ToggleTodoCompletion i) w))) = Some r' /\
       Todo.created_at r' = Todo.created_at r /\
       Todo.updated_at r' = clock w (ticks w) /\
       stamps_ordered r').
Proof.
  pose proof (reachable_stamps_inv w Hw Hc) as Hinv.
  assert (Hall : forall x, In x (todos (db w)) ->
                   stamps_ordered x /\ stamped_before w x).
  { apply Forall_forall. exact Hinv. }
  split; [|split; [|split]].
  - eapply Forall_impl; [|exact Hinv]. now intros x [Hx _].
  - intros d. simpl. unfold_service. simpl. eexists. split; [reflexivity|].
    unfold stamps_ordered. simpl. apply Hc.
  - intros i d r Hr. simpl. rewrite (update_todo_found i d w r Hr). simpl.
    set (r' := Todo.set_updated_at _ _).
    pose proof (SessionFacts.find_has_id _ _ _ Hr) as [Hid Hin].
    assert (Hc' : Todo.created_at r' = Todo.created_at r).
    { unfold r', TodoService.apply_fields.
      destruct (TodoUpdate.title d), (TodoUpdate.description d),
        (TodoUpdate.completed d); reflexivity. }
    assert (Hid' : Todo.id r' = Some i).
    { unfold r', TodoService.apply_fields.
      destruct (TodoUpdate.title d), (TodoUpdate.description d),
        (TodoUpdate.completed d); exact Hid. }
    exists r'. split; [now apply (SessionFacts.find_replace_hit i r' _ r)|].
    split; [exact Hc'|]. split; [reflexivity|].
    unfold stamps_ordered. rewrite Hc'.
    destruct (Hall r Hin) as [Ho Hp].
    eapply DatetimeFacts.le_trans; [exact Ho | exact Hp].
  - intros i r Hr. simpl. rewrite (toggle_todo_completion_found i w r Hr). simpl.
    set (r' := Todo.set_updated_at _ _).
    pose proof (SessionFacts.find_has_id _ _ _ Hr) as [Hid Hin].
    exists r'. split; [now apply (SessionFacts.find_replace_hit i r' _ r)|].
    split; [reflexivity|]. split; [reflexivity|].
    unfold stamps_ordered. simpl.
    destruct (Hall r Hin) as [Ho Hp].
    eapply DatetimeFacts.le_trans; [exact Ho | exact Hp].
Qed.

Lemma updated_at_never_before_created_at_witness :
  reachable three_todos /\ nondecreasing (clock three_todos) /\
  Forall stamps_ordered (todos (db three_todos)).
Proof.
  assert (Hw : reachable three_todos).
  { eexists ticking_clock, _. reflexivity. }
  assert (Hc : nondecreasing (clock three_todos)).
  { exact ticking_clock_nondecreasing. }
  split; [exact Hw|]. split; [exact Hc|].
  exact (proj1 (updated_at_never_before_created_at three_todos Hw Hc)).
Defined.

(** ** Listing by creation time *)

Module SortFacts.
Import Session.

Lemma lex_compare_lt_trans a : forall b c,
  Datetime.lex_compare a b = Lt -> Datetime.lex_compare b c = Lt ->
  Datetime.lex_compare a c = Lt.
Proof.
  induction a as [|x a IH]; intros [|y b] [|z c]; simpl; try congruence.
  destruct (Z.compare_spec x y), (Z.compare_spec y z), (Z.compare_spec x z);
    subst; try lia; try congruence; eauto.
Qed.

Lemma compare_gt_trans a b c :
  Datetime.compare a b = Gt -> Datetime.compare b c = Gt ->
  Datetime.compare a c = Gt.
Proof.
  unfold Datetime.compare. intros Hab Hbc.
  rewrite (DatetimeFacts.lex_compare_antisym (Datetime.fields c)
             (Datetime.fields a)).
  rewrite (lex_compare_lt_trans (Datetime.fields c) (Datetime.fields b)
             (Datetime.fields a)); [reflexivity| |].
  - rewrite (DatetimeFacts.lex_compare_antisym (Datetime.fields b)
               (Datetime.fields c)), Hbc. reflexivity.
  - rewrite (DatetimeFacts.lex_compare_antisym (Datetime.fields a)
               (Datetime.fields b)), Hab. reflexivity.
Qed.

Lemma compare_eq_l a b c :
  Datetime.compare a b = Eq -> Datetime.compare a c = Datetime.compare b c.
Proof.
  unfold Datetime.compare. intros H.
  now rewrite (DatetimeFacts.lex_compare_eq _ _ H).
Qed.

Lemma compare_eq_r a b c :
  Datetime.compare b c = Eq -> Datetime.compare a b = Datetime.compare a c.
Proof.
  unfold Datetime.compare. intros H.
  now rewrite (DatetimeFacts.lex_compare_eq _ _ H).
Qed.

(** [behind], read off the comparison of the creation times. *)
Lemma behind_compare rank x y :
  behind rank x y =
  match Datetime.compare (Todo.created_at x) (Todo.created_at y) with
  | Lt => true
  | Eq => rank y <? rank x
  | Gt => false
  end.
Proof.
  unfold behind, Datetime.ltb, Datetime.eqb.
  destruct (Datetime.compare (Todo.created_at x) (Todo.created_at y));
    reflexivity.
Qed.

Lemma behind_false_le rank x y :
  behind rank x y = false ->
  Datetime.le (Todo.created_at y) (Todo.created_at x).
Proof.
  unfold behind. intros H. apply orb_false_elim in H.
  now apply DatetimeFacts.ltb_false_le.
Qed.

Lemma behind_true_le rank x y :
  behind rank x y = true ->
  Datetime.le (Todo.created_at x) (Todo.created_at y).
Proof.
  rewrite behind_compare. unfold Datetime.le, Datetime.leb.
  destruct (Datetime.compare (Todo.created_at x) (Todo.created_at y));
    congruence.
Qed.

(** Of two rows one comes behind the other at most one way round. *)
Lemma behind_asym rank x y :
  behind rank x y = true -> behind rank y x = false.
Proof.
  rewrite !behind_compare. unfold Datetime.compare.
  rewrite (DatetimeFacts.lex_compare_antisym
             (Datetime.fields (Todo.created_at x))
             (Datetime.fields (Todo.created_at y))).
  destruct (Datetime.lex_compare (Datetime.fields (Todo.created_at x))
              (Datetime.fields (Todo.created_at y))); simpl;
    try congruence.
  intros H. apply Z.ltb_lt in H. apply Z.ltb_ge. lia.
Qed.

Lemma listed_before_trans rank a b c :
  listed_before rank a b -> listed_before rank b c -> listed_before rank a c.
Proof.
  unfold listed_before. rewrite !behind_compare.
  destruct (Datetime.compare (Todo.created_at a) (Todo.created_at b)) eqn:Eab;
    try discriminate;
    destruct (Datetime.compare (Todo.created_at b) (Todo.created_at c)) eqn:Ebc;
    try discriminate; intros Hab Hbc.
  - rewrite (compare_eq_l _ _ _ Eab), Ebc.
    apply Z.ltb_ge in Hab, Hbc. apply Z.ltb_ge. lia.
  - now rewrite (compare_eq_l _ _ _ Eab), Ebc.
  - now rewrite <- (compare_eq_r _ _ _ Ebc), Eab.
  - now rewrite (compare_gt_trans _ _ _ Eab Ebc).
Qed.

Lemma listed_before_created_desc rank a b :
  listed_before rank a b -> created_desc a b.
Proof. apply behind_false_le. Qed.

Lemma insert_desc_perm rank x l : Permutation (insert_desc rank x l) (x :: l).
Proof.
  induction l as [|y l IH]; simpl; [apply Permutation_refl|].
  destruct (behind rank x y).
  - eapply perm_trans; [apply perm_skip, IH | apply perm_swap].
  - apply Permutation_refl.
Qed.

Lemma sort_desc_perm rank l : Permutation (sort_desc rank l) l.
Proof.
  induction l as [|x l IH]; simpl; [constructor|].
  eapply perm_trans; [apply insert_desc_perm | now apply perm_skip].
Qed.

Lemma insert_desc_listed rank x l :
  StronglySorted (listed_before rank) l ->
  StronglySorted (listed_before rank) (insert_desc rank x l).
Proof.
  induction l as [|y l IH]; intros Hs; simpl.
  - constructor; constructor.
  - inversion Hs as [|? ? Hl Hy]; subst.
    destruct (behind rank x y) eqn:E.
    + constructor; [now apply IH|].
      apply Forall_forall. intros z Hz.
      apply (Permutation_in _ (insert_desc_perm rank x l)) in Hz.
      destruct Hz as [<- | Hz].
      * now apply behind_asym.
      * rewrite Forall_forall in Hy. now apply Hy.
    + constructor; [exact Hs|].
      constructor; [exact E|].
      eapply Forall_impl; [|exact Hy].
      intros z. now apply listed_before_trans.
Qed.

(** The listing is in the order of [behind]. *)
Lemma sort_desc_listed rank l :
  StronglySorted (listed_before rank) (sort_desc rank l).
Proof.
  induction l as [|x l IH]; simpl; [constructor|].
  now apply insert_desc_listed.
Qed.

Lemma StronglySorted_impl {A} (R S : A -> A -> Prop) l :
  (forall a b, R a b -> S a b) -> StronglySorted R l -> StronglySorted S l.
Proof.
  intros HRS Hs. induction Hs as [|x l Hs IH Hx]; constructor; [exact IH|].
  eapply Forall_impl; [|exact Hx]. intros y. apply HRS.
Qed.

(** So it is in descending order of [created_at]. *)
Lemma sort_desc_sorted rank l :
  StronglySorted created_desc (sort_desc rank l).
Proof.
  apply (StronglySorted_impl (listed_before rank)).
  - apply listed_before_created_desc.
  - apply sort_desc_listed.
Qed.

Lemma from_todo_shows r : shows r (TodoResponse.from_todo r).
Proof.
  unfold shows. simpl. repeat split.
  destruct (Todo.id r) as [i|]; simpl; [|reflexivity].
  destruct (Z.eqb_spec i 0); congruence.
Qed.

Lemma map_from_todo_shows l :
  Forall2 shows l (map TodoResponse.from_todo l).
Proof.
  induction l as [|r l IH]; simpl; constructor;
    [apply from_todo_shows | exact IH].
Qed.

End SortFacts.

(** C4, as stated, fails: the query names [created_at] as its only key,
    so nothing puts the newer of two todos created at the same time
    first.  On an engine that returns equal rows in the order they were
    inserted, they are listed oldest first. *)
Lemma get_all_todos_ties_oldest_first :
  map Todo.created_at (todos (db two_at_once))
    = [frozen_clock 0; frozen_clock 0] /\
  map TodoResponse.title (fst (TodoService.get_all_todos heap_order two_at_once))
    = ["First Todo"; "Second Todo"] /\
  map TodoResponse.id (fst (TodoService.get_all_todos heap_order two_at_once))
    = [1; 2].
Proof. split; [reflexivity | split; reflexivity]. Qed.

(** C4, amended. Whatever order the engine holds equal rows in,
    [get_all_todos] changes nothing and returns one response for each
    stored row, showing that row's fields, in descending order of
    [created_at]; rows created at the same time come in the engine's
    order.  On an empty table the result is the empty list. *)
Theorem get_all_todos_by_created_at_desc (rank : Todo.t -> Z) (w : World) :
  let (res, w') := TodoService.get_all_todos rank w in
  w' = w /\
  (exists rows,
     res = map TodoResponse.from_todo rows /\
     Forall2 shows rows res /\
     Permutation rows (todos (db w)) /\
     StronglySorted created_desc rows /\
     StronglySorted (listed_before rank) rows) /\
  fst (TodoService.get_all_todos rank
         (with_db (mkDatabase [] (next_id (db w))) w)) = [].
Proof.
  unfold_service. simpl. split; [reflexivity|]. split; [|reflexivity].
  exists (Session.sort_desc rank (todos (db w))).
  split; [reflexivity|]. split; [|split; [|split]].
  - apply SortFacts.map_from_todo_shows.
  - apply SortFacts.sort_desc_perm.
  - apply SortFacts.sort_desc_sorted.
  - apply SortFacts.sort_desc_listed.
Qed.

(** The listing of test_get_all_todos_with_data and of the scenario, on
    either engine. *)
Example get_all_todos_three :
  map TodoResponse.id (fst (TodoService.get_all_todos heap_order three_todos))
    = [3; 2; 1] /\
  map TodoResponse.id (fst (TodoService.get_all_todos newest_first three_todos))
    = [3; 2; 1].
Proof. split; reflexivity. Qed.

(** The scenario of test_get_stats_mixed. *)
Example get_stats_three :
  fst (TodoService.get_stats three_todos)
  = [("total", 3); ("completed", 2); ("pending", 1)].
Proof. reflexivity. Qed.

(** * More of the code *)

(** ** Stripping *)

Module StripFacts.

Lemma lstrip_nil_iff l : lstrip_chars l = [] <-> forallb is_space l = true.
Proof.
  induction l as [|c l IH]; simpl; [tauto|].
  destruct (is_space c); simpl; [exact IH|].
  split; discriminate.
Qed.

Lemma lstrip_head l c l' : lstrip_chars l = c :: l' -> is_space c = false.
Proof.
  induction l as [|x l IH]; simpl; [discriminate|].
  destruct (is_space x) eqn:E; [exact IH|].
  intros H. injection H as <- _. exact E.
Qed.

Lemma lstrip_fixed c l : is_space c = false -> lstrip_chars (c :: l) = c :: l.
Proof. intros H. simpl. now rewrite H. Qed.

Lemma lstrip_idem l : lstrip_chars (lstrip_chars l) = lstrip_chars l.
Proof.
  destruct (lstrip_chars l) as [|c l'] eqn:E; [reflexivity|].
  apply lstrip_fixed. exact (lstrip_head _ _ _ E).
Qed.

Lemma lstrip_length l : (List.length (lstrip_chars l) <= List.length l)%nat.
Proof.
  induction l as [|c l IH]; simpl; [lia|].
  destruct (is_space c); simpl; lia.
Qed.

(** Stripping the front keeps a last character that is no whitespace. *)
Lemma lstrip_snoc a c :
  is_space c = false -> exists a', lstrip_chars (a ++ [c]) = (a' ++ [c])%list.
Proof.
  intros Hc. induction a as [|x a IH]; simpl.
  - rewrite Hc. now exists [].
  - destruct (is_space x); [exact IH|]. now exists (x :: a).
Qed.

(** Stripping the back keeps a first character that is no whitespace. *)
Lemma rstrip_head c m :
  is_space c = false ->
  exists q, rev (lstrip_chars (rev (c :: m))) = c :: q.
Proof.
  intros Hc. simpl rev.
  destruct (lstrip_snoc (rev m) c Hc) as [a' ->].
  rewrite rev_app_distr. simpl. now exists (rev a').
Qed.

Lemma strip_chars s :
  list_ascii_of_string (strip s)
  = rev (lstrip_chars (rev (lstrip_chars (list_ascii_of_string s)))).
Proof. unfold strip. apply list_ascii_of_string_of_list_ascii. Qed.

Lemma string_length_chars s :
  String.length s = List.length (list_ascii_of_string s).
Proof. induction s as [|c s IH]; simpl; congruence. Qed.

Lemma chars_nil s : list_ascii_of_string s = [] -> s = "".
Proof. destruct s; [reflexivity | discriminate]. Qed.

Lemma strip_blank s : strip s = "" <-> blank s = true.
Proof.
  unfold blank. rewrite <- lstrip_nil_iff. split.
  - intros H. apply (f_equal list_ascii_of_string) in H.
    rewrite strip_chars in H. simpl in H.
    destruct (lstrip_chars (list_ascii_of_string s)) as [|c m] eqn:E;
      [reflexivity|].
    destruct (rstrip_head c m (lstrip_head _ _ _ E)) as [q Hq].
    rewrite Hq in H. discriminate.
  - intros H. unfold strip. now rewrite H.
Qed.

Lemma strip_idem s : strip (strip s) = strip s.
Proof.
  unfold strip at 1. rewrite strip_chars.
  destruct (lstrip_chars (list_ascii_of_string s)) as [|c m] eqn:E;
    [unfold strip; now rewrite E|].
  pose proof (lstrip_head _ _ _ E) as Hc.
  destruct (rstrip_head c m Hc) as [q Hq].
  rewrite Hq, (lstrip_fixed c q Hc), <- Hq, rev_involutive, lstrip_idem.
  unfold strip. now rewrite E.
Qed.

Lemma strip_length s : (String.length (strip s) <= String.length s)%nat.
Proof.
  rewrite !string_length_chars, strip_chars, length_rev.
  etransitivity; [apply lstrip_length|].
  rewrite length_rev. apply lstrip_length.
Qed.

End StripFacts.

(** ** The form handler *)

(** The handler strips an input that holds something, and takes [""] for
    an input that holds nothing: the same as stripping either. *)
Lemma add_new_todo_eq tv dv w :
  add_new_todo tv dv w =
  match strip (value_or_empty tv) with
  | "" => (warning "Please enter a title for your todo", w)
  | String c t =>
      match TodoCreate.init (String c t) (Some (strip (value_or_empty dv))) with
      | inl e => (negative e, w)
      | inr todo_data =>
          (positive "Todo added successfully!",
           snd (TodoService.create_todo todo_data w))
      end
  end.
Proof.
  unfold add_new_todo.
  assert (Ht : match tv with
               | Some (String c v) => strip (String c v)
               | _ => ""
               end = strip (value_or_empty tv)).
  { destruct tv as [[|c v]|]; reflexivity. }
  assert (Hd : match dv with
               | Some (String c v) => strip (String c v)
               | _ => ""
               end = strip (value_or_empty dv)).
  { destruct dv as [[|c v]|]; reflexivity. }
  rewrite Ht, Hd.
  destruct (strip (value_or_empty tv)) as [|c t]; [reflexivity|].
  destruct (TodoCreate.init (String c t) (Some (strip (value_or_empty dv))));
    reflexivity.
Qed.

(** X1. What [add_new_todo] does, by the notification it shows.  A warning:
    the title was blank, and nothing was stored.  An error: the stripped
    title or description was too long, and nothing was stored.  Success:
    one row was appended, holding the stripped title and description, not
    completed; its title is not empty and has no whitespace around it. *)
Theorem add_new_todo_outcome (tv dv : option string) (w : World) :
  let title := strip (value_or_empty tv) in
  let description := strip (value_or_empty dv) in
  match add_new_todo tv dv w with
  | (warning m, w') =>
      w' = w /\ m = "Please enter a title for your todo" /\
      blank (value_or_empty tv) = true
  | (negative e, w') =>
      w' = w /\ blank (value_or_empty tv) = false /\
      (200 < String.length title \/ 1000 < String.length description)%nat
  | (positive m, w') =>
      m = "Todo added successfully!" /\
      blank (value_or_empty tv) = false /\
      (String.length title <= 200 /\ String.length description <= 1000)%nat /\
      exists row,
        todos (db w') = (todos (db w) ++ [row])%list /\
        Todo.title row = title /\ Todo.description row = description /\
        Todo.completed row = false /\
        Todo.title row <> "" /\ strip (Todo.title row) = Todo.title row
  end.
Proof.
  intros title description. rewrite add_new_todo_eq. fold title description.
  pose proof (StripFacts.strip_blank (value_or_empty tv)) as Hb.
  pose proof (StripFacts.strip_idem (value_or_empty tv)) as Hi.
  fold title in Hb, Hi.
  destruct title as [|c t] eqn:Et.
  - split; [reflexivity|]. split; [reflexivity|]. now apply Hb.
  - assert (Hnb : blank (value_or_empty tv) = false).
    { destruct (blank (value_or_empty tv)); [|reflexivity].
      destruct Hb as [_ Hb]. discriminate (Hb eq_refl). }
    unfold TodoCreate.init, too_long, TodoCreate.title_max_length,
      TodoCreate.description_max_length.
    destruct (Nat.ltb_spec 200 (String.length (String c t))) as [Hl|Hl].
    { split; [reflexivity|]. split; [exact Hnb | now left]. }
    destruct (Nat.ltb_spec 1000 (String.length description)) as [Hd|Hd].
    { split; [reflexivity|]. split; [exact Hnb | now right]. }
    split; [reflexivity|]. split; [exact Hnb|]. split; [split; assumption|].
    unfold_service. simpl. eexists. split; [reflexivity|]. simpl.
    repeat split; [discriminate | exact Hi].
Qed.

(** ** The handlers of a card *)

(** X2. The toggle button reports the state the todo is in afterwards:
    "completed" for a todo that was pending, "reopened" for one that was
    completed; for an id without a row it warns and changes nothing. *)
Theorem ui_toggle_reports_new_state (i : Z) (w : World) :
  match find (Todo.has_id i) (todos (db w)) with
  | Some r =>
      TodoUi.toggle_todo_completion i w
      = (positive (if Todo.completed r then "Todo reopened!" else "Todo completed!"),
         snd (TodoService.toggle_todo_completion i w))
  | None =>
      TodoUi.toggle_todo_completion i w = (warning "Todo not found", w)
  end.
Proof.
  destruct (find (Todo.has_id i) (todos (db w))) as [r|] eqn:E;
    unfold TodoUi.toggle_todo_completion, bind.
  - rewrite (toggle_todo_completion_found i w r E). simpl.
    now destruct (Todo.completed r).
  - now rewrite (toggle_todo_completion_none i w E).
Qed.

(** X3. The delete button says "Todo deleted!" exactly when a row with the id
    was stored, and then that row is gone; otherwise it says "Todo not
    found" and changes nothing. *)
Theorem ui_delete_reports_removal (i : Z) (w : World) :
  let (n, w') := TodoUi.delete_todo i w in
  (n = warning "Todo deleted!" /\ ~ absent i w /\ absent i w') \/
  (n = warning "Todo not found" /\ absent i w /\ w' = w).
Proof.
  unfold TodoUi.delete_todo, bind.
  destruct (find (Todo.has_id i) (todos (db w))) as [r|] eqn:E.
  - rewrite (delete_todo_found i w r E). left.
    split; [reflexivity|]. split.
    + unfold absent. rewrite E. discriminate.
    + unfold absent. simpl. apply SessionFacts.find_filter_deleted.
  - rewrite (delete_todo_none i w E). right. repeat split. exact E.
Qed.

(** ** Reading back what was written *)

Lemma find_app_hit i l row :
  find (Todo.has_id i) l = None -> Todo.has_id i row = true ->
  find (Todo.has_id i) (l ++ [row])%list = Some row.
Proof.
  intros Hl Hrow. induction l as [|x l IH]; simpl in *.
  - now rewrite Hrow.
  - destruct (Todo.has_id i x); [discriminate | auto].
Qed.

Lemma find_app_old i l row r :
  find (Todo.has_id i) l = Some r ->
  find (Todo.has_id i) (l ++ [row])%list = Some r.
Proof.
  induction l as [|x l IH]; simpl; [discriminate|].
  destruct (Todo.has_id i x); auto.
Qed.

(** X4. In a reachable store, [get_todo_by_id] on the id a [create_todo] has
    just returned gives back the very response [create_todo] returned. *)
Theorem get_after_create (d : TodoCreate.t) (w : World) (Hw : reachable w) :
  let (resp, w') := TodoService.create_todo d w in
  TodoService.get_todo_by_id (TodoResponse.id resp) w' = (Some resp, w').
Proof.
  pose proof (reachable_wf w Hw) as Hwf. pose proof Hwf as [Hpos _].
  assert (Habs : find (Todo.has_id (next_id (db w))) (todos (db w)) = None).
  { apply SessionFacts.wf_db_absent; [exact Hwf | lia]. }
  unfold_service. cbn.
  assert (Hid : (if next_id (db w) =? 0 then 0 else next_id (db w)) = next_id (db w)).
  { destruct (Z.eqb_spec (next_id (db w)) 0); lia. }
  rewrite Hid.
  rewrite (find_app_hit _ _ _ Habs); [cbn; now rewrite ?Hid|].
  unfold Todo.has_id. simpl. apply Z.eqb_refl.
Qed.

Lemma get_after_create_witness :
  reachable three_todos /\
  let (resp, w') :=
    TodoService.create_todo (TodoCreate.mk "Test Todo" "") three_todos in
  TodoService.get_todo_by_id (TodoResponse.id resp) w' = (Some resp, w').
Proof.
  assert (H : reachable three_todos).
  { eexists ticking_clock, _. reflexivity. }
  split; [exact H|].
  exact (get_after_create (TodoCreate.mk "Test Todo" "") three_todos H).
Defined.

(** X5. After [update_todo] or [toggle_todo_completion], [get_todo_by_id] on
    the same id returns what the call returned: the response of the row
    as it now stands when there is one, [None] when there is none. *)
Theorem get_after_write (i : Z) (d : TodoUpdate.t) (w : World) :
  (let (res, w') := TodoService.update_todo i d w in
   TodoService.get_todo_by_id i w' = (res, w')) /\
  (let (res, w') := TodoService.toggle_todo_completion i w in
   TodoService.get_todo_by_id i w' = (res, w')).
Proof.
  destruct (find (Todo.has_id i) (todos (db w))) as [r|] eqn:E.
  - pose proof (SessionFacts.find_has_id _ _ _ E) as [Hid _].
    rewrite (update_todo_found i d w r E),
      (toggle_todo_completion_found i w r E).
    split.
    + set (r' := Todo.set_updated_at _ _).
      assert (Hid' : Todo.id r' = Some i).
      { unfold r', TodoService.apply_fields.
        destruct (TodoUpdate.title d), (TodoUpdate.description d),
          (TodoUpdate.completed d); exact Hid. }
      unfold TodoService.get_todo_by_id, bind, ret, Session.get. simpl.
      now rewrite (SessionFacts.find_replace_hit i r' _ r Hid' E).
    + set (r' := Todo.set_updated_at _ _).
      unfold TodoService.get_todo_by_id, bind, ret, Session.get. simpl.
      now rewrite (SessionFacts.find_replace_hit i r' _ r Hid E).
  - rewrite (update_todo_none i d w E), (toggle_todo_completion_none i w E).
    split; now apply get_todo_by_id_none.
Qed.

(** ** Toggling and updating *)

(** X6. Toggling a stored todo is updating it with the single field
    [completed] set to the negation of its present value: the same
    response, the same store, the same use of the clock. *)
Theorem toggle_is_update_of_completed
  (i : Z) (w : World) (r : Todo.t)
  (H : find (Todo.has_id i) (todos (db w)) = Some r) :
  TodoService.toggle_todo_completion i w
  = TodoService.update_todo i
      (TodoUpdate.mk None None (Some (negb (Todo.completed r)))) w.
Proof.
  rewrite (toggle_todo_completion_found i w r H).
  now rewrite (update_todo_found i _ w r H).
Qed.

Lemma toggle_is_update_of_completed_witness :
  find (Todo.has_id 3) (todos (db three_todos)) = Some todo_3 /\
  TodoService.toggle_todo_completion 3 three_todos
  = TodoService.update_todo 3
      (TodoUpdate.mk None None (Some (negb (Todo.completed todo_3))))
      three_todos.
Proof.
  assert (H : find (Todo.has_id 3) (todos (db three_todos)) = Some todo_3).
  { reflexivity. }
  split; [exact H|].
  exact (toggle_is_update_of_completed 3 three_todos todo_3 H).
Defined.

Lemma apply_fields_merge d1 d2 c r :
  TodoService.apply_fields d2
    (Todo.set_updated_at c (TodoService.apply_fields d1 r))
  = Todo.set_updated_at c (TodoService.apply_fields (merge_updates d1 d2) r).
Proof.
  unfold TodoService.apply_fields, merge_updates.
  destruct d1 as [[t1|] [s1|] [b1|]], d2 as [[t2|] [s2|] [b2|]]; reflexivity.
Qed.

Lemma apply_fields_id d r :
  Todo.id (TodoService.apply_fields d r) = Todo.id r.
Proof.
  unfold TodoService.apply_fields.
  destruct (TodoUpdate.title d), (TodoUpdate.description d),
    (TodoUpdate.completed d); reflexivity.
Qed.

Lemma replace_replace i r1 r2 x :
  Todo.id r1 = Some i -> Todo.id r2 = Some i ->
  Session.replace r2 (Session.replace r1 x) = Session.replace r2 x.
Proof.
  intros H1 H2. unfold Session.replace. rewrite H1, H2.
  destruct (Todo.has_id i x) eqn:Hx; [|now rewrite Hx].
  now rewrite (SessionFacts.has_id_intro i r1 H1).
Qed.

(** X7. Two updates of a stored todo in a row amount to one: the second call
    returns, and leaves in the store, exactly what a single update with
    the merged request (the later value where both set a field) would,
    made at the time of the second call. *)
Theorem update_twice_is_merged_update
  (i : Z) (d1 d2 : TodoUpdate.t) (w : World) (r : Todo.t)
  (H : find (Todo.has_id i) (todos (db w)) = Some r) :
  TodoService.update_todo i d2 (snd (TodoService.update_todo i d1 w))
  = TodoService.update_todo i (merge_updates d1 d2)
      (mkWorld (db w) (clock w) (S (ticks w))).
Proof.
  pose proof (SessionFacts.find_has_id _ _ _ H) as [Hid _].
  rewrite (update_todo_found i d1 w r H). simpl snd.
  set (r1 := Todo.set_updated_at _ (TodoService.apply_fields d1 r)).
  assert (Hid1 : Todo.id r1 = Some i).
  { unfold r1. simpl. now rewrite apply_fields_id. }
  set (w1 := mkWorld _ _ _).
  assert (H1 : find (Todo.has_id i) (todos (db w1)) = Some r1).
  { unfold w1. simpl. now apply (SessionFacts.find_replace_hit i r1 _ r). }
  rewrite (update_todo_found i d2 w1 r1 H1).
  rewrite (update_todo_found i (merge_updates d1 d2)
             (mkWorld (db w) (clock w) (S (ticks w))) r H).
  unfold w1, r1. simpl. rewrite apply_fields_merge. simpl.
  set (r2 := Todo.set_updated_at _ _).
  assert (Hid2 : Todo.id r2 = Some i).
  { unfold r2. simpl. now rewrite apply_fields_id. }
  rewrite map_map.
  rewrite (map_ext _ (Session.replace r2)); [reflexivity|].
  intros x. now apply (replace_replace i).
Qed.

Lemma update_twice_is_merged_update_witness :
  find (Todo.has_id 3) (todos (db three_todos)) = Some todo_3 /\
  TodoService.update_todo 3 (TodoUpdate.mk None (Some "later") (Some true))
    (snd (TodoService.update_todo 3
            (TodoUpdate.mk (Some "Title") (Some "sooner") None) three_todos))
  = TodoService.update_todo 3
      (merge_updates (TodoUpdate.mk (Some "Title") (Some "sooner") None)
                     (TodoUpdate.mk None (Some "later") (Some true)))
      (mkWorld (db three_todos) (clock three_todos) (S (ticks three_todos))).
Proof.
  assert (H : find (Todo.has_id 3) (todos (db three_todos)) = Some todo_3).
  { reflexivity. }
  split; [exact H|].
  exact (update_twice_is_merged_update 3 _ _ three_todos todo_3 H).
Defined.

(** ** Primary keys *)

Lemma map_id_replace todo l :
  map Todo.id (map (Session.replace todo) l) = map Todo.id l.
Proof.
  rewrite map_map. apply map_ext. intros x. apply SessionFacts.replace_id.
Qed.

Lemma NoDup_map_filter {A B} (f : A -> B) (p : A -> bool) l :
  NoDup (map f l) -> NoDup (map f (filter p l)).
Proof.
  induction l as [|x l IH]; simpl; [auto|].
  intros H. inversion H as [|? ? Hx Hl]; subst.
  destruct (p x); simpl; [|auto].
  constructor; [|auto].
  intros Hin. apply Hx. apply in_map_iff in Hin.
  destruct Hin as (y & Hy & Hin). apply filter_In in Hin.
  apply in_map_iff. exists y. tauto.
Qed.

Lemma step_unique_ids r w :
  wf_db (db w) -> unique_ids (db w) -> unique_ids (db (step r w)).
Proof.
  unfold unique_ids. intros [Hpos Hall] Hu.
  destruct r; simpl; unfold_service; simpl;
    try (destruct (find (Todo.has_id todo_id) (todos (db w))) as [row|] eqn:E);
    simpl; try exact Hu.
  - (* create *)
    rewrite map_app. simpl.
    apply (Permutation_NoDup (Permutation_cons_append _ _)).
    constructor; [|exact Hu].
    intros Hin. apply in_map_iff in Hin. destruct Hin as (x & Hx & Hin).
    rewrite Forall_forall in Hall. destruct (Hall x Hin) as (j & Hj & Hr).
    rewrite Hj in Hx. injection Hx as Hx. lia.
  - now rewrite map_id_replace.
  - now rewrite map_id_replace.
  - now apply NoDup_map_filter.
Qed.

(** In a reachable store no two rows share a primary key. *)
Lemma reachable_unique_ids w : reachable w -> unique_ids (db w).
Proof.
  intros Hw.
  enough (H : wf_db (db w) /\ unique_ids (db w)) by apply H.
  revert w Hw.
  apply (reachable_ind (fun w => wf_db (db w) /\ unique_ids (db w))).
  - intros c. split; [split; simpl; [lia | constructor] | constructor].
  - intros r w [Hwf Hu]. split; [now apply step_wf | now apply step_unique_ids].
Qed.

(** With distinct keys, the row [find] returns is the only one with its
    key. *)
Lemma unique_split i l r :
  NoDup (map Todo.id l) -> find (Todo.has_id i) l = Some r ->
  exists l1 l2,
    l = (l1 ++ r :: l2)%list /\
    Forall (fun x => Todo.has_id i x = false) l1 /\
    Forall (fun x => Todo.has_id i x = false) l2.
Proof.
  induction l as [|x l IH]; simpl; [discriminate|].
  intros Hu Hf. inversion Hu as [|? ? Hx Hl]; subst.
  destruct (Todo.has_id i x) eqn:E.
  - injection Hf as <-. exists [], l. split; [reflexivity|].
    split; [constructor|].
    apply Forall_forall. intros y Hy.
    destruct (Todo.has_id i y) eqn:Ey; [|reflexivity].
    destruct Hx. apply SessionFacts.has_id_inv in E, Ey.
    rewrite E, <- Ey. now apply in_map.
  - destruct (IH Hl Hf) as (l1 & l2 & -> & H1 & H2).
    exists (x :: l1), l2. split; [reflexivity|].
    split; [constructor; assumption | assumption].
Qed.

Lemma map_replace_miss i todo l :
  Todo.id todo = Some i ->
  Forall (fun x => Todo.has_id i x = false) l ->
  map (Session.replace todo) l = l.
Proof.
  intros Hid Hl. induction Hl as [|x l Hx Hl IH]; simpl; [reflexivity|].
  rewrite IH. unfold Session.replace. now rewrite Hid, Hx.
Qed.

Lemma filter_keep_miss i l :
  Forall (fun x => Todo.has_id i x = false) l ->
  filter (fun x => negb (Todo.has_id i x)) l = l.
Proof.
  intros Hl. induction Hl as [|x l Hx Hl IH]; simpl; [reflexivity|].
  now rewrite Hx, IH.
Qed.

(** X8. In a reachable store a write touches exactly one row.  [update_todo]
    and [toggle_todo_completion] put the new version of the row where the
    old one stood; [delete_todo] takes the row out; every other row stays
    as it is and where it is. *)
Theorem write_touches_one_row
  (i : Z) (d : TodoUpdate.t) (w : World) (r : Todo.t)
  (Hw : reachable w) (H : find (Todo.has_id i) (todos (db w)) = Some r) :
  exists l1 l2,
    todos (db w) = (l1 ++ r :: l2)%list /\
    todos (db (snd (TodoService.update_todo i d w)))
      = (l1 ++ Todo.set_updated_at (clock w (ticks w))
                 (TodoService.apply_fields d r) :: l2)%list /\
    todos (db (snd (TodoService.toggle_todo_completion i w)))
      = (l1 ++ Todo.set_updated_at (clock w (ticks w))
                 (Todo.set_completed (negb (Todo.completed r)) r) :: l2)%list /\
    todos (db (snd (TodoService.delete_todo i w))) = (l1 ++ l2)%list.
Proof.
  pose proof (SessionFacts.find_has_id _ _ _ H) as [Hid _].
  destruct (unique_split i _ r (reachable_unique_ids w Hw) H)
    as (l1 & l2 & Hl & H1 & H2).
  exists l1, l2. split; [exact Hl|].
  rewrite (update_todo_found i d w r H),
    (toggle_todo_completion_found i w r H), (delete_todo_found i w r H).
  simpl. rewrite Hl, !map_app, filter_app. simpl.
  rewrite (SessionFacts.has_id_intro i r Hid). simpl.
  rewrite !(filter_keep_miss i) by assumption.
  assert (Hu : Todo.id (Todo.set_updated_at (clock w (ticks w))
                          (TodoService.apply_fields d r)) = Some i).
  { simpl. now rewrite apply_fields_id. }
  rewrite !(map_replace_miss i _ _ Hu) by assumption.
  assert (Ht : Todo.id (Todo.set_updated_at (clock w (ticks w))
                          (Todo.set_completed (negb (Todo.completed r)) r))
               = Some i) by exact Hid.
  rewrite !(map_replace_miss i _ _ Ht) by assumption.
  unfold Session.replace. rewrite Hu, Ht.
  rewrite (SessionFacts.has_id_intro i r Hid).
  repeat split.
Qed.

Lemma write_touches_one_row_witness :
  reachable three_todos /\
  find (Todo.has_id 3) (todos (db three_todos)) = Some todo_3 /\
  exists l1 l2,
    todos (db three_todos) = (l1 ++ todo_3 :: l2)%list /\
    todos (db (snd (TodoService.delete_todo 3 three_todos))) = (l1 ++ l2)%list.
Proof.
  assert (Hw : reachable three_todos).
  { eexists ticking_clock, _. reflexivity. }
  assert (H : find (Todo.has_id 3) (todos (db three_todos)) = Some todo_3).
  { reflexivity. }
  split; [exact Hw|]. split; [exact H|].
  destruct (write_touches_one_row 3 (TodoUpdate.mk None None None)
              three_todos todo_3 Hw H) as (l1 & l2 & Hl & _ & _ & Hd).
  exists l1, l2. split; assumption.
Defined.

(** ** How the counts move *)

Lemma get_stats_eq w :
  TodoService.get_stats w
  = ([("total", Z.of_nat (List.length (todos (db w))));
      ("completed", count Todo.completed (todos (db w)));
      ("pending", Z.of_nat (List.length (todos (db w)))
                  - count Todo.completed (todos (db w)))], w).
Proof. unfold_service. now rewrite sum_ones. Qed.

Lemma create_todo_todos d w :
  todos (db (snd (TodoService.create_todo d w)))
  = (todos (db w)
     ++ [Todo.mk (Some (next_id (db w))) (TodoCreate.title d)
           (TodoCreate.description d) false
           (clock w (ticks w)) (clock w (S (ticks w)))])%list.
Proof. reflexivity. Qed.

Lemma stats_ext (a b c a' b' c' : Z) :
  a = a' -> b = b' -> c = c' ->
  [("total", a); ("completed", b); ("pending", c)]
  = [("total", a'); ("completed", b'); ("pending", c')].
Proof. now intros -> -> ->. Qed.

Lemma count_app p l1 l2 : count p (l1 ++ l2) = count p l1 + count p l2.
Proof. unfold count. rewrite filter_app, length_app. lia. Qed.

Lemma count_cons p x l :
  count p (x :: l) = (if p x then 1 else 0) + count p l.
Proof. unfold count. simpl. destruct (p x); simpl List.length; lia. Qed.

(** X9. What each write does to the statistics of a reachable store with
    [total] rows of which [completed] are completed.  A create, whatever
    the store holds, adds one pending todo.  Toggling a stored todo moves
    one todo between completed and pending and keeps the total.  Deleting
    a stored todo takes one off the total and off the side it was on. *)
Theorem stats_after_write (w : World) (Hw : reachable w) :
  let total := Z.of_nat (List.length (todos (db w))) in
  let completed := count Todo.completed (todos (db w)) in
  fst (TodoService.get_stats w)
    = [("total", total); ("completed", completed);
       ("pending", total - completed)] /\
  (forall d,
     fst (TodoService.get_stats (snd (TodoService.create_todo d w)))
     = [("total", total + 1); ("completed", completed);
        ("pending", total - completed + 1)]) /\
  (forall i r,
     find (Todo.has_id i) (todos (db w)) = Some r ->
     fst (TodoService.get_stats (snd (TodoService.toggle_todo_completion i w)))
       = (if Todo.completed r
          then [("total", total); ("completed", completed - 1);
                ("pending", total - completed + 1)]
          else [("total", total); ("completed", completed + 1);
                ("pending", total - completed - 1)]) /\
     fst (TodoService.get_stats (snd (TodoService.delete_todo i w)))
       = (if Todo.completed r
          then [("total", total - 1); ("completed", completed - 1);
                ("pending", total - completed)]
          else [("total", total - 1); ("completed", completed);
                ("pending", total - completed - 1)])).
Proof.
  intros total completed.
  split; [now rewrite get_stats_eq|]. split.
  - intros d. rewrite get_stats_eq. cbn [fst]. rewrite create_todo_todos.
    rewrite length_app, count_app, count_cons.
    cbn [Todo.completed List.length]. fold total completed.
    change (count Todo.completed []) with 0.
    apply stats_ext; unfold total, completed; lia.
  - intros i r H.
    pose proof (SessionFacts.find_has_id _ _ _ H) as [Hid _].
    destruct (unique_split i _ r (reachable_unique_ids w Hw) H)
      as (l1 & l2 & Hl & H1 & H2).
    assert (Ht : total
                 = Z.of_nat (List.length l1) + 1 + Z.of_nat (List.length l2)).
    { unfold total. rewrite Hl, length_app. simpl List.length. lia. }
    assert (Hc : completed = count Todo.completed l1
                             + (if Todo.completed r then 1 else 0)
                             + count Todo.completed l2).
    { unfold completed. rewrite Hl, count_app, count_cons. lia. }
    split.
    + rewrite get_stats_eq. cbn [fst].
      rewrite (toggle_todo_completion_found i w r H). cbn [snd db todos].
      rewrite Hl, map_app. cbn [map].
      assert (Hi : Todo.id (Todo.set_updated_at (clock w (ticks w))
                              (Todo.set_completed (negb (Todo.completed r)) r))
                   = Some i) by exact Hid.
      rewrite !(map_replace_miss i _ _ Hi) by assumption.
      assert (Hrep : Session.replace
                       (Todo.set_updated_at (clock w (ticks w))
                          (Todo.set_completed (negb (Todo.completed r)) r)) r
                     = Todo.set_updated_at (clock w (ticks w))
                         (Todo.set_completed (negb (Todo.completed r)) r)).
      { unfold Session.replace.
        now rewrite Hi, (SessionFacts.has_id_intro i r Hid). }
      rewrite Hrep, !length_app, !count_app, !count_cons.
      cbn [List.length Todo.completed Todo.set_updated_at Todo.set_completed].
      revert Hc. destruct (Todo.completed r); intros Hc; cbn [negb];
        apply stats_ext; lia.
    + rewrite get_stats_eq. cbn [fst].
      rewrite (delete_todo_found i w r H). cbn [snd db todos].
      rewrite Hl, filter_app. cbn [filter].
      rewrite (SessionFacts.has_id_intro i r Hid). cbn [negb].
      rewrite !(filter_keep_miss i) by assumption.
      rewrite !length_app, !count_app.
      revert Hc. destruct (Todo.completed r); intros Hc; apply stats_ext; lia.
Qed.

Lemma stats_after_write_witness :
  reachable three_todos /\
  fst (TodoService.get_stats
         (snd (TodoService.create_todo (TodoCreate.mk "Todo 4" "")
                 three_todos)))
  = [("total", 4); ("completed", 2); ("pending", 2)] /\
  fst (TodoService.get_stats
         (snd (TodoService.toggle_todo_completion 3 three_todos)))
  = [("total", 3); ("completed", 3); ("pending", 0)] /\
  fst (TodoService.get_stats (snd (TodoService.delete_todo 1 three_todos)))
  = [("total", 2); ("completed", 1); ("pending", 1)].
Proof.
  assert (Hw : reachable three_todos).
  { eexists ticking_clock, _. reflexivity. }
  assert (H3 : find (Todo.has_id 3) (todos (db three_todos)) = Some todo_3).
  { reflexivity. }
  assert (H1 : find (Todo.has_id 1) (todos (db three_todos)) = Some todo_1).
  { reflexivity. }
  split; [exact Hw|]. split; [|split].
  - exact (proj1 (proj2 (stats_after_write three_todos Hw))
             (TodoCreate.mk "Todo 4" "")).
  - exact (proj1 (proj2 (proj2 (stats_after_write three_todos Hw))
                    3 todo_3 H3)).
  - exact (proj2 (proj2 (proj2 (stats_after_write three_todos Hw))
                    1 todo_1 H1)).
Defined.

(** ** The listing *)

Lemma count_perm p l l' : Permutation l l' -> count p l = count p l'.
Proof.
  intros H. induction H as [| x l l' H IH | x y l | l l' l'' H1 IH1 H2 IH2].
  - reflexivity.
  - now rewrite !count_cons, IH.
  - rewrite !count_cons. lia.
  - congruence.
Qed.

(** X11. The statistics count what the listing shows: [total] is the number of
    responses [get_all_todos] returns, [completed] the number of those
    marked completed, [pending] the number of the rest. *)
Theorem stats_count_the_listing (rank : Todo.t -> Z) (w : World) :
  let listing := fst (TodoService.get_all_todos rank w) in
  fst (TodoService.get_stats w)
  = [("total", Z.of_nat (List.length listing));
     ("completed",
      Z.of_nat (List.length (filter TodoResponse.completed listing)));
     ("pending",
      Z.of_nat (List.length
                  (filter (fun t => negb (TodoResponse.completed t)) listing)))].
Proof.
  intros listing. rewrite get_stats_eq. simpl fst.
  pose proof (SortFacts.sort_desc_perm rank (todos (db w))) as Hperm.
  assert (Hf : forall (q : bool -> bool) l,
             List.length (filter (fun t => q (TodoResponse.completed t))
                            (map TodoResponse.from_todo l))
             = List.length (filter (fun r => q (Todo.completed r)) l)).
  { intros q l. induction l as [|x l IH]; [reflexivity|].
    simpl. destruct (q (Todo.completed x)); simpl; congruence. }
  unfold listing. unfold_service. simpl.
  rewrite length_map, (Permutation_length Hperm).
  rewrite (Hf (fun b => b)), (Hf negb).
  change (fun r : Todo.t => Todo.completed r) with Todo.completed.
  pose proof (count_perm Todo.completed _ _ Hperm) as P1.
  pose proof (count_perm (fun r => negb (Todo.completed r)) _ _ Hperm) as P2.
  pose proof (count_split Todo.completed (todos (db w))) as Hs.
  unfold count in *. apply stats_ext; lia.
Qed.

Lemma from_todo_ids d l :
  Forall (id_assigned d) l -> NoDup (map Todo.id l) ->
  NoDup (map TodoResponse.id (map TodoResponse.from_todo l)) /\
  Forall (fun t => 0 < TodoResponse.id t) (map TodoResponse.from_todo l).
Proof.
  induction l as [|x l IH]; intros Hall Hu; simpl; [split; constructor|].
  inversion Hall as [|? ? (i & Hi & Hr) Hl]; subst.
  inversion Hu as [|? ? Hx Hn]; subst.
  destruct (IH Hl Hn) as [IH1 IH2].
  assert (Hid : TodoResponse.id_or_0 (Todo.id x) = i).
  { rewrite Hi. simpl. destruct (Z.eqb_spec i 0); lia. }
  split.
  - constructor; [|exact IH1].
    rewrite Hid. intros Hin. apply in_map_iff in Hin.
    destruct Hin as (t & Ht & Hin). apply in_map_iff in Hin.
    destruct Hin as (y & <- & Hy). simpl in Ht.
    rewrite Forall_forall in Hl. destruct (Hl y Hy) as (j & Hj & Hjr).
    rewrite Hj in Ht. simpl in Ht.
    destruct (Z.eqb_spec j 0); [lia|]. subst j.
    apply Hx. rewrite Hi, <- Hj. now apply in_map.
  - constructor; [|exact IH2]. simpl. rewrite Hid. lia.
Qed.

(** X12. No two todos of the listing of a reachable store share an id, and
    every id in it is positive: the id a card's buttons pass on names one
    todo. *)
Theorem listing_ids_are_distinct
  (rank : Todo.t -> Z) (w : World) (Hw : reachable w) :
  let listing := fst (TodoService.get_all_todos rank w) in
  NoDup (map TodoResponse.id listing) /\
  Forall (fun t => 0 < TodoResponse.id t) listing.
Proof.
  pose proof (reachable_wf w Hw) as [_ Hall].
  pose proof (reachable_unique_ids w Hw) as Hu.
  pose proof (SortFacts.sort_desc_perm rank (todos (db w))) as Hperm.
  unfold_service. simpl. apply (from_todo_ids (db w)).
  - apply Forall_forall. intros x Hx. rewrite Forall_forall in Hall.
    apply Hall. now apply (Permutation_in _ Hperm).
  - apply (Permutation_NoDup (Permutation_sym (Permutation_map _ Hperm))).
    exact Hu.
Qed.

Lemma listing_ids_are_distinct_witness :
  reachable three_todos /\
  NoDup (map TodoResponse.id
           (fst (TodoService.get_all_todos heap_order three_todos))).
Proof.
  assert (Hw : reachable three_todos).
  { eexists ticking_clock, _. reflexivity. }
  split; [exact Hw|].
  exact (proj1 (listing_ids_are_distinct heap_order three_todos Hw)).
Defined.

(** ** Length limits *)

Lemma TodoCreate_init_inr title description d :
  TodoCreate.init title description = inr d ->
  (String.length (TodoCreate.title d) <= 200 /\
   String.length (TodoCreate.description d) <= 1000)%nat.
Proof.
  unfold TodoCreate.init, too_long, TodoCreate.title_max_length,
    TodoCreate.description_max_length.
  destruct (Nat.ltb_spec 200 (String.length title)); [discriminate|].
  destruct (Nat.ltb_spec 1000
              (String.length match description with Some d => d | None => "" end));
    [discriminate|].
  intros H'. injection H' as <-. simpl. split; assumption.
Qed.

Lemma TodoUpdate_init_inr title description completed d :
  TodoUpdate.init title description completed = inr d ->
  (forall s, TodoUpdate.title d = Some s -> (String.length s <= 200)%nat) /\
  (forall s, TodoUpdate.description d = Some s -> (String.length s <= 1000)%nat).
Proof.
  unfold TodoUpdate.init, too_long.
  destruct title as [t|], description as [de|]; simpl;
    repeat match goal with
      | |- context [(?a <? ?b)%nat] => destruct (Nat.ltb_spec a b)
      end; try discriminate;
    intros H'; injection H' as <-; simpl; split; intros s Hs;
    try discriminate; injection Hs as <-; assumption.
Qed.

Lemma step_within_limits r w :
  validated r ->
  Forall within_limits (todos (db w)) ->
  Forall within_limits (todos (db (step r w))).
Proof.
  intros Hv Hall.
  destruct r as [d | i d | i | i | e | i |]; cbn [step]; try exact Hall.
  - destruct Hv as (t & de & Hv). apply TodoCreate_init_inr in Hv.
    rewrite create_todo_todos. apply Forall_app. split; [exact Hall|].
    constructor; [exact Hv | constructor].
  - destruct Hv as (t & de & c & Hv). apply TodoUpdate_init_inr in Hv.
    destruct Hv as [Ht Hd].
    destruct (find (Todo.has_id i) (todos (db w))) as [r|] eqn:E.
    + rewrite (update_todo_found i d w r E). simpl.
      apply SessionFacts.find_has_id in E. destruct E as [_ Hin].
      rewrite Forall_forall in Hall. pose proof (Hall r Hin) as [Hrt Hrd].
      apply Forall_map, Forall_forall. intros x Hx.
      unfold Session.replace. simpl.
      destruct (Todo.id (TodoService.apply_fields d r)) as [j|]; [|now apply Hall].
      destruct (Todo.has_id j x); [|now apply Hall].
      unfold within_limits, TodoService.apply_fields.
      destruct (TodoUpdate.title d) as [s1|] eqn:E1,
        (TodoUpdate.description d) as [s2|] eqn:E2,
        (TodoUpdate.completed d); simpl; split;
        try assumption; try (now apply Ht); now apply Hd.
    + now rewrite (update_todo_none i d w E).
  - destruct (find (Todo.has_id i) (todos (db w))) as [r|] eqn:E.
    + rewrite (toggle_todo_completion_found i w r E). simpl.
      apply SessionFacts.find_has_id in E. destruct E as [_ Hin].
      rewrite Forall_forall in Hall. pose proof (Hall r Hin) as Hr.
      apply Forall_map, Forall_forall. intros x Hx.
      unfold Session.replace. simpl.
      destruct (Todo.id r) as [j|]; [|now apply Hall].
      destruct (Todo.has_id j x); [exact Hr | now apply Hall].
    + now rewrite (toggle_todo_completion_none i w E).
  - destruct (find (Todo.has_id i) (todos (db w))) as [r|] eqn:E.
    + rewrite (delete_todo_found i w r E). simpl.
      apply Forall_forall. intros x Hx. apply filter_In in Hx.
      rewrite Forall_forall in Hall. now apply Hall.
    + now rewrite (delete_todo_none i w E).
  - unfold_service.
    destruct (find (Todo.has_id i) (todos (db w))); exact Hall.
Qed.

(** X13. When every create and update request of a history was built by its
    validating constructor, no stored title is ever longer than 200
    characters and no stored description longer than 1000. *)
Theorem validated_requests_keep_limits
  (c : nat -> Datetime.t) (rs : list request) (H : Forall validated rs) :
  Forall within_limits (todos (db (run rs (initial c)))).
Proof.
  induction rs as [|r rs IH] using rev_ind; [constructor|].
  apply Forall_app in H. destruct H as [Hrs Hr].
  inversion Hr; subst.
  rewrite run_snoc. apply step_within_limits; auto.
Qed.

Lemma validated_requests_keep_limits_witness :
  Forall validated
    [CreateTodo (TodoCreate.mk "Todo 1" "");
     UpdateTodo 1 (TodoUpdate.mk (Some "Updated Title") None (Some true))] /\
  Forall within_limits
    (todos (db (run [CreateTodo (TodoCreate.mk "Todo 1" "");
                     UpdateTodo 1 (TodoUpdate.mk (Some "Updated Title") None
                                     (Some true))]
                    (initial ticking_clock)))).
Proof.
  assert (H : Forall validated
                [CreateTodo (TodoCreate.mk "Todo 1" "");
                 UpdateTodo 1 (TodoUpdate.mk (Some "Updated Title") None
                                 (Some true))]).
  { constructor; [exists "Todo 1", None; reflexivity|].
    constructor; [|constructor].
    exists (Some "Updated Title"), None, (Some true). reflexivity. }
  split; [exact H|].
  exact (validated_requests_keep_limits ticking_clock _ H).
Defined.

(** ** The creation time of a row *)

Lemma apply_fields_created_at d r :
  Todo.created_at (TodoService.apply_fields d r) = Todo.created_at r.
Proof.
  unfold TodoService.apply_fields.
  destruct (TodoUpdate.title d), (TodoUpdate.description d),
    (TodoUpdate.completed d); reflexivity.
Qed.

Lemma find_filter_other i j l :
  i <> j ->
  find (Todo.has_id i) (filter (fun x => negb (Todo.has_id j x)) l)
  = find (Todo.has_id i) l.
Proof.
  intros Hne. induction l as [|x l IH]; simpl; [reflexivity|].
  destruct (Todo.has_id j x) eqn:Hj; simpl.
  - destruct (Todo.has_id i x) eqn:Hi; [|exact IH].
    apply SessionFacts.has_id_inv in Hi, Hj. congruence.
  - now rewrite IH.
Qed.

(** One write, seen from the key [i]: what [find] gives for [i] after a
    row with key [j] was overwritten by a row with the same creation
    time. *)
Lemma keeps_created_replace i j c w r r' t :
  Todo.id r' = Some j -> Todo.created_at r' = Todo.created_at r ->
  find (Todo.has_id j) (todos (db w)) = Some r ->
  keeps_created i c w ->
  keeps_created i c
    (mkWorld (mkDatabase (map (Session.replace r') (todos (db w)))
                (next_id (db w))) (clock w) t).
Proof.
  intros Hid Hc Hr [Hlt Hk]. split; [exact Hlt|]. simpl.
  destruct (Z.eq_dec i j) as [->|Hne].
  - rewrite (SessionFacts.find_replace_hit j r' _ r Hid Hr).
    rewrite Hr in Hk. congruence.
  - now rewrite (find_replace_other j i r' _ Hid Hne).
Qed.

Lemma step_keeps_created i c r w :
  keeps_created i c w -> keeps_created i c (step r w).
Proof.
  intros Hk. pose proof Hk as [Hlt Hf].
  destruct r as [d | j d | j | j | e | j |]; cbn [step]; try exact Hk.
  - split; [unfold_service; simpl; lia | rewrite create_todo_todos].
    destruct (find (Todo.has_id i) (todos (db w))) as [r0|] eqn:E.
    + now rewrite (find_app_old i _ _ r0 E).
    + rewrite SessionFacts.find_app_miss; [exact I | exact E|].
      unfold Todo.has_id. simpl. apply Z.eqb_neq. lia.
  - destruct (find (Todo.has_id j) (todos (db w))) as [r|] eqn:E.
    + rewrite (update_todo_found j d w r E). simpl snd.
      pose proof (SessionFacts.find_has_id _ _ _ E) as [Hid _].
      apply (keeps_created_replace i j c w r); auto.
      * simpl. now rewrite apply_fields_id.
      * simpl. apply apply_fields_created_at.
    + now rewrite (update_todo_none j d w E).
  - destruct (find (Todo.has_id j) (todos (db w))) as [r|] eqn:E.
    + rewrite (toggle_todo_completion_found j w r E). simpl snd.
      pose proof (SessionFacts.find_has_id _ _ _ E) as [Hid _].
      apply (keeps_created_replace i j c w r); auto.
    + now rewrite (toggle_todo_completion_none j w E).
  - destruct (find (Todo.has_id j) (todos (db w))) as [r|] eqn:E.
    + rewrite (delete_todo_found j w r E). split; [exact Hlt|]. simpl.
      destruct (Z.eq_dec i j) as [->|Hne].
      * now rewrite SessionFacts.find_filter_deleted.
      * now rewrite (find_filter_other i j _ Hne).
    + now rewrite (delete_todo_none j w E).
  - unfold_service.
    destruct (find (Todo.has_id j) (todos (db w))); exact Hk.
Qed.

(** X14. [created_at] is set once: whatever calls follow in a reachable store,
    a todo that is still stored under its id has the creation time it
    had. *)
Theorem created_at_never_changes
  (i : Z) (w : World) (r : Todo.t) (rs : list request)
  (Hw : reachable w) (H : find (Todo.has_id i) (todos (db w)) = Some r) :
  match find (Todo.has_id i) (todos (db (run rs w))) with
  | Some r' => Todo.created_at r' = Todo.created_at r
  | None => True
  end.
Proof.
  assert (Hk : keeps_created i (Todo.created_at r) w).
  { split; [|now rewrite H].
    pose proof (reachable_wf w Hw) as [_ Hall].
    apply SessionFacts.find_has_id in H. destruct H as [Hid Hin].
    rewrite Forall_forall in Hall. destruct (Hall r Hin) as (j & Hj & Hr).
    rewrite Hid in Hj. injection Hj as <-. lia. }
  clear H Hw. revert w Hk.
  induction rs as [|q rs IH]; intros w Hk; [apply Hk|].
  simpl. apply IH. now apply step_keeps_created.
Qed.

Lemma created_at_never_changes_witness :
  reachable three_todos /\
  find (Todo.has_id 3) (todos (db three_todos)) = Some todo_3 /\
  match find (Todo.has_id 3)
          (todos (db (run [UpdateTodo 3 (TodoUpdate.mk (Some "New") None None);
                           ToggleTodoCompletion 3] three_todos))) with
  | Some r' => Todo.created_at r' = Todo.created_at todo_3
  | None => True
  end.
Proof.
  assert (Hw : reachable three_todos).
  { eexists ticking_clock, _. reflexivity. }
  assert (H : find (Todo.has_id 3) (todos (db three_todos)) = Some todo_3).
  { reflexivity. }
  split; [exact Hw|]. split; [exact H|].
  exact (created_at_never_changes 3 three_todos todo_3
           [UpdateTodo 3 (TodoUpdate.mk (Some "New") None None);
            ToggleTodoCompletion 3] Hw H).
Defined.

(** ** Stamps are clock readings *)

Lemma stamped_by_clock_later c t t' d r :
  (t <= t')%nat ->
  stamped_by_clock (mkWorld d c t) r ->
  forall d', stamped_by_clock (mkWorld d' c t') r.
Proof.
  intros Ht (n & m & Hnm & Hc & Hu) d'. exists n, m. simpl in *.
  repeat split; auto; lia.
Qed.

Lemma stamped_by_clock_restamp (f : Todo.t -> Todo.t) i w r :
  (forall x, Todo.created_at (f x) = Todo.created_at x) ->
  find (Todo.has_id i) (todos (db w)) = Some r ->
  Forall (stamped_by_clock w) (todos (db w)) ->
  let r' := Todo.set_updated_at (clock w (ticks w)) (f r) in
  let w' := mkWorld (mkDatabase (map (Session.replace r') (todos (db w)))
                       (next_id (db w))) (clock w) (S (ticks w)) in
  Forall (stamped_by_clock w') (todos (db w')).
Proof.
  intros Hf Hfind Hall r' w'. unfold w'. simpl.
  apply SessionFacts.find_has_id in Hfind. destruct Hfind as [_ Hin].
  rewrite Forall_forall in Hall.
  apply Forall_map, Forall_forall. intros x Hx.
  assert (Hold : forall y, In y (todos (db w)) ->
            stamped_by_clock
              (mkWorld (mkDatabase (map (Session.replace r') (todos (db w)))
                          (next_id (db w))) (clock w) (S (ticks w))) y).
  { intros y Hy. destruct (Hall y Hy) as (n & m & Hnm & Hc & Hu).
    exists n, m. simpl. repeat split; auto; lia. }
  unfold Session.replace.
  destruct (Todo.id r') as [j|]; [|now apply Hold].
  destruct (Todo.has_id j x); [|now apply Hold].
  destruct (Hall r Hin) as (n & m & Hnm & Hc & Hu).
  exists n, (ticks w). simpl. rewrite Hf. repeat split; auto; lia.
Qed.

Lemma step_stamped_by_clock r w :
  Forall (stamped_by_clock w) (todos (db w)) ->
  Forall (stamped_by_clock (step r w)) (todos (db (step r w))).
Proof.
  intros Hall.
  destruct r as [d | i d | i | i | e | i |]; cbn [step]; try exact Hall.
  - rewrite create_todo_todos. apply Forall_app. split.
    + eapply Forall_impl; [|exact Hall].
      intros x (n & m & Hnm & Hc & Hu). exists n, m.
      unfold_service. simpl. repeat split; auto; lia.
    + constructor; [|constructor].
      exists (ticks w), (S (ticks w)). unfold_service. simpl.
      repeat split; lia.
  - destruct (find (Todo.has_id i) (todos (db w))) as [r|] eqn:E.
    + rewrite (update_todo_found i d w r E). simpl snd.
      apply (stamped_by_clock_restamp (TodoService.apply_fields d) i w r);
        auto using apply_fields_created_at.
    + now rewrite (update_todo_none i d w E).
  - destruct (find (Todo.has_id i) (todos (db w))) as [r|] eqn:E.
    + rewrite (toggle_todo_completion_found i w r E). simpl snd.
      apply (stamped_by_clock_restamp
               (fun x => Todo.set_completed (negb (Todo.completed x)) x) i w r);
        auto.
    + now rewrite (toggle_todo_completion_none i w E).
  - destruct (find (Todo.has_id i) (todos (db w))) as [r|] eqn:E.
    + rewrite (delete_todo_found i w r E). simpl.
      apply Forall_forall. intros x Hx. apply filter_In in Hx.
      rewrite Forall_forall in Hall.
      destruct (Hall x (proj1 Hx)) as (n & m & Hnm & Hc & Hu).
      exists n, m. simpl. repeat split; auto; lia.
    + now rewrite (delete_todo_none i w E).
  - unfold_service.
    destruct (find (Todo.has_id i) (todos (db w))); exact Hall.
Qed.

Lemma reachable_stamped_by_clock w :
  reachable w -> Forall (stamped_by_clock w) (todos (db w)).
Proof.
  revert w.
  apply (reachable_ind (fun w => Forall (stamped_by_clock w) (todos (db w)))).
  - intros c. constructor.
  - intros r w. apply step_stamped_by_clock.
Qed.

(** X15. Whatever the clock does, both stamps of every row of a reachable
    store are readings the service took from it, and the reading in
    [created_at] was taken before the one in [updated_at]: the two stamps
    of a row never come from the same call of [utcnow]. *)
Theorem stamps_are_successive_readings (w : World) (Hw : reachable w) :
  Forall (stamped_by_clock w) (todos (db w)).
Proof.
  revert w Hw.
  apply (reachable_ind (fun w => Forall (stamped_by_clock w) (todos (db w)))).
  - intros c. simpl. constructor.
  - intros r w Hall. now apply step_stamped_by_clock.
Qed.

Lemma stamps_are_successive_readings_witness :
  reachable three_todos /\
  Forall (stamped_by_clock three_todos) (todos (db three_todos)).
Proof.
  assert (Hw : reachable three_todos).
  { eexists ticking_clock, _. reflexivity. }
  split; [exact Hw|].
  exact (stamps_are_successive_readings three_todos Hw).
Defined.

(** ** Rendering timestamps *)

Module IsoFacts.
Import Datetime.

Lemma append_length a b :
  String.length (a ++ b) = (String.length a + String.length b)%nat.
Proof. induction a as [|c a IH]; simpl; congruence. Qed.

Lemma append_inj a : forall a' b b',
  String.length a = String.length a' ->
  (a ++ b = a' ++ b')%string -> a = a' /\ b = b'.
Proof.
  induction a as [|c a IH]; intros [|c' a'] b b' Hlen H; simpl in *;
    try discriminate.
  - now split.
  - injection H as -> H. injection Hlen as Hlen.
    destruct (IH _ _ _ Hlen H) as [-> ->]. now split.
Qed.

Lemma string_tail_inj c c' a b : String c a = String c' b -> a = b.
Proof. intros H. now injection H. Qed.

Lemma pad_dec_length w : forall n, String.length (pad_dec w n) = w.
Proof.
  induction w as [|w IH]; intros n; simpl; [reflexivity|].
  rewrite append_length, IH. simpl. lia.
Qed.

Lemma digit_inj n m : digit n = digit m -> n mod 10 = m mod 10.
Proof.
  unfold digit. intros H.
  pose proof (Z.mod_pos_bound n 10 ltac:(lia)) as Hn.
  pose proof (Z.mod_pos_bound m 10 ltac:(lia)) as Hm.
  apply (f_equal nat_of_ascii) in H.
  rewrite !nat_ascii_embedding in H by lia. lia.
Qed.

Lemma pad_dec_inj w : forall n m,
  0 <= n < 10 ^ Z.of_nat w -> 0 <= m < 10 ^ Z.of_nat w ->
  pad_dec w n = pad_dec w m -> n = m.
Proof.
  induction w as [|w IH]; intros n m Hn Hm H.
  - simpl in Hn, Hm. lia.
  - rewrite Nat2Z.inj_succ, Z.pow_succ_r in Hn, Hm by lia.
    simpl in H.
    apply append_inj in H; [|now rewrite !pad_dec_length].
    destruct H as [Hq Hd]. injection Hd as Hd. apply digit_inj in Hd.
    apply IH in Hq.
    + rewrite (Z.div_mod n 10), (Z.div_mod m 10) by lia. congruence.
    + split; [apply Z.div_pos; lia | apply Z.div_lt_upper_bound; lia].
    + split; [apply Z.div_pos; lia | apply Z.div_lt_upper_bound; lia].
Qed.

(** [isoformat], with its separators as single characters. *)
Lemma isoformat_parts d :
  isoformat d =
  pad_dec 4 (year d) ++ String "-" (pad_dec 2 (month d) ++ String "-"
    (pad_dec 2 (day d) ++ String "T" (pad_dec 2 (hour d) ++ String ":"
      (pad_dec 2 (minute d) ++ String ":"
        (pad_dec 2 (second d) ++ microsecond_suffix d))))).
Proof.
  unfold isoformat, microsecond_suffix.
  destruct (microsecond d =? 0); reflexivity.
Qed.

Lemma microsecond_suffix_inj d1 d2 :
  0 <= microsecond d1 <= 999999 -> 0 <= microsecond d2 <= 999999 ->
  microsecond_suffix d1 = microsecond_suffix d2 ->
  microsecond d1 = microsecond d2.
Proof.
  unfold microsecond_suffix. intros H1 H2.
  destruct (Z.eqb_spec (microsecond d1) 0) as [E1|E1],
    (Z.eqb_spec (microsecond d2) 0) as [E2|E2]; try discriminate; [lia|].
  intros H. apply string_tail_inj in H.
  apply (pad_dec_inj 6) in H; [exact H | |];
    change (10 ^ Z.of_nat 6) with 1000000; lia.
Qed.

(** No two datetimes are rendered alike. *)
Lemma isoformat_inj d1 d2 :
  in_range d1 -> in_range d2 -> isoformat d1 = isoformat d2 -> d1 = d2.
Proof.
  intros (Hy1 & Hm1 & Hd1 & Hh1 & Hi1 & Hs1 & Hu1)
         (Hy2 & Hm2 & Hd2 & Hh2 & Hi2 & Hs2 & Hu2) H.
  rewrite !isoformat_parts in H.
  repeat match type of H with
    | (_ ++ _ = _ ++ _)%string =>
        apply append_inj in H; [|now rewrite !pad_dec_length];
        let P := fresh "P" in destruct H as [P H]
    | String _ _ = String _ _ => apply string_tail_inj in H
    end.
  apply microsecond_suffix_inj in H; [|assumption|assumption].
  apply (pad_dec_inj 4) in P;
    [|change (10 ^ Z.of_nat 4) with 10000; lia ..].
  apply (pad_dec_inj 2) in P0, P1, P2, P3, P4;
    try (change (10 ^ Z.of_nat 2) with 100; lia).
  destruct d1, d2. simpl in *. congruence.
Qed.

Lemma compare_eq_refl d : compare d d = Eq.
Proof. unfold compare. apply DatetimeFacts.lex_compare_refl. Qed.

End IsoFacts.

(** X16. [from_todo] renders the stamps without loss: two rows whose creation
    times are proper datetimes show the same [created_at] only when they
    were created at the same time, and likewise for [updated_at]. *)
Theorem from_todo_keeps_timestamps_apart
  (r1 r2 : Todo.t)
  (Hc1 : in_range (Todo.created_at r1)) (Hc2 : in_range (Todo.created_at r2))
  (Hu1 : in_range (Todo.updated_at r1)) (Hu2 : in_range (Todo.updated_at r2)) :
  (TodoResponse.created_at (TodoResponse.from_todo r1)
   = TodoResponse.created_at (TodoResponse.from_todo r2)
   <-> Todo.created_at r1 = Todo.created_at r2) /\
  (TodoResponse.updated_at (TodoResponse.from_todo r1)
   = TodoResponse.updated_at (TodoResponse.from_todo r2)
   <-> Todo.updated_at r1 = Todo.updated_at r2).
Proof.
  simpl. split; split; intros H;
    try (now apply IsoFacts.isoformat_inj); now rewrite H.
Qed.

Lemma from_todo_keeps_timestamps_apart_witness :
  in_range (Todo.created_at todo_1) /\ in_range (Todo.created_at todo_3) /\
  in_range (Todo.updated_at todo_1) /\ in_range (Todo.updated_at todo_3) /\
  Todo.created_at todo_1 <> Todo.created_at todo_3 /\
  Todo.updated_at todo_1 <> Todo.updated_at todo_3 /\
  TodoResponse.created_at (TodoResponse.from_todo todo_1)
    <> TodoResponse.created_at (TodoResponse.from_todo todo_3) /\
  TodoResponse.updated_at (TodoResponse.from_todo todo_1)
    <> TodoResponse.updated_at (TodoResponse.from_todo todo_3).
Proof.
  assert (Hc1 : in_range (Todo.created_at todo_1)).
  { unfold in_range. simpl. lia. }
  assert (Hc3 : in_range (Todo.created_at todo_3)).
  { unfold in_range. simpl. lia. }
  assert (Hu1 : in_range (Todo.updated_at todo_1)).
  { unfold in_range. simpl. lia. }
  assert (Hu3 : in_range (Todo.updated_at todo_3)).
  { unfold in_range. simpl. lia. }
  assert (Dc : Todo.created_at todo_1 <> Todo.created_at todo_3).
  { intros H. vm_compute in H. discriminate H. }
  assert (Du : Todo.updated_at todo_1 <> Todo.updated_at todo_3).
  { intros H. vm_compute in H. discriminate H. }
  split; [exact Hc1|]. split; [exact Hc3|].
  split; [exact Hu1|]. split; [exact Hu3|].
  split; [exact Dc|]. split; [exact Du|]. split.
  - intros H. apply Dc.
    exact (proj1 (proj1 (from_todo_keeps_timestamps_apart
                           todo_1 todo_3 Hc1 Hc3 Hu1 Hu3)) H).
  - intros H. apply Du.
    exact (proj1 (proj2 (from_todo_keeps_timestamps_apart
                           todo_1 todo_3 Hc1 Hc3 Hu1 Hu3)) H).
Defined.

Lemma ticking_clock_ltb n m :
  (n < m)%nat -> Datetime.ltb (ticking_clock n) (ticking_clock m) = true.
Proof.
  intros H. unfold Datetime.ltb, Datetime.compare, ticking_clock.
  cbn [Datetime.fields Datetime.lex_compare Datetime.year Datetime.month
       Datetime.day Datetime.hour Datetime.minute Datetime.second
       Datetime.microsecond].
  rewrite !Z.compare_refl.
  destruct (Z.compare_spec (Z.of_nat n) (Z.of_nat m)); try reflexivity; lia.
Qed.

(** X17. When the readings taken so far were proper datetimes, each later than
    the one before, every todo in the listing of a reachable store shows
    an [updated_at] different from its [created_at], a freshly created
    one included. *)
Theorem listed_timestamps_differ
  (w : World) (Hw : reachable w)
  (Hc : forall n m, (n < m < ticks w)%nat ->
          Datetime.ltb (clock w n) (clock w m) = true)
  (Hr : forall n, (n < ticks w)%nat -> in_range (clock w n))
  (rank : Todo.t -> Z) :
  Forall (fun t => TodoResponse.created_at t <> TodoResponse.updated_at t)
         (fst (TodoService.get_all_todos rank w)).
Proof.
  pose proof (reachable_stamped_by_clock w Hw) as Hall.
  unfold_service. simpl.
  apply Forall_map, Forall_forall. intros x Hx.
  apply (Permutation_in _ (SortFacts.sort_desc_perm _ _)) in Hx.
  rewrite Forall_forall in Hall.
  destruct (Hall x Hx) as (n & m & Hnm & Hcr & Hup).
  simpl. rewrite Hcr, Hup. intros H.
  apply IsoFacts.isoformat_inj in H; [|apply Hr; lia|apply Hr; lia].
  pose proof (Hc n m Hnm) as Hlt.
  rewrite H in Hlt. unfold Datetime.ltb in Hlt.
  now rewrite IsoFacts.compare_eq_refl in Hlt.
Qed.

Lemma listed_timestamps_differ_witness :
  reachable three_todos /\
  Forall (fun t => TodoResponse.created_at t <> TodoResponse.updated_at t)
         (fst (TodoService.get_all_todos heap_order three_todos)).
Proof.
  assert (Hw : reachable three_todos).
  { eexists ticking_clock, _. reflexivity. }
  assert (Hc : forall n m, (n < m < ticks three_todos)%nat ->
             Datetime.ltb (clock three_todos n) (clock three_todos m) = true).
  { intros n m H. apply ticking_clock_ltb. lia. }
  assert (Hr : forall n, (n < ticks three_todos)%nat ->
             in_range (clock three_todos n)).
  { intros n H. change (ticks three_todos) with 8%nat in H.
    change (clock three_todos n) with (ticking_clock n).
    unfold in_range, ticking_clock. simpl. lia. }
  split; [exact Hw|].
  exact (listed_timestamps_differ three_todos Hw Hc Hr heap_order).
Defined.

(** ** The place of a new todo in the listing *)




(** ** The line a card shows *)

Module LabelFacts.
Import Datetime.

Lemma append_nil_r s : (s ++ "")%string = s.
Proof. induction s as [|c s IH]; simpl; congruence. Qed.

Lemma substring_0_0 s : substring 0 0 s = "".
Proof. now destruct s. Qed.

Lemma substring_append a : forall n b,
  (String.length a <= n)%nat ->
  substring 0 n (a ++ b) = (a ++ substring 0 (n - String.length a) b)%string.
Proof.
  induction a as [|c a IH]; intros n b Hn; simpl.
  - now rewrite Nat.sub_0_r.
  - destruct n as [|n]; [simpl in Hn; lia|].
    simpl. rewrite IH by (simpl in Hn; lia). reflexivity.
Qed.

Lemma replace_char_append o n a b :
  TodoUi.replace_char o n (a ++ b)
  = (TodoUi.replace_char o n a ++ TodoUi.replace_char o n b)%string.
Proof. induction a as [|c a IH]; simpl; congruence. Qed.

Lemma digit_not_T n : Ascii.eqb (digit n) "T" = false.
Proof.
  unfold digit.
  pose proof (Z.mod_pos_bound n 10 ltac:(lia)) as H.
  assert (Hk : (Z.to_nat (n mod 10) < 10)%nat) by lia.
  destruct (Z.to_nat (n mod 10)) as [|k]; [reflexivity|].
  do 9 (destruct k as [|k]; [reflexivity|]). lia.
Qed.

(** Digits are left alone when the [T] is replaced. *)
Lemma replace_char_pad_dec c w : forall n,
  TodoUi.replace_char "T" c (pad_dec w n) = pad_dec w n.
Proof.
  induction w as [|w IH]; intros n; cbn [pad_dec]; [reflexivity|].
  rewrite replace_char_append, IH. cbn [TodoUi.replace_char].
  now rewrite digit_not_T.
Qed.

End LabelFacts.

(** X18. The metadata line of a card shows the creation time to the second,
    date and time separated by a space: the [T] of the ISO rendering is
    replaced, and the microseconds, whatever they are, are cut off. *)
Theorem created_label_shows_seconds (r : Todo.t) :
  let d := Todo.created_at r in
  TodoUi.created_label (TodoResponse.from_todo r)
  = "Created: "
    ++ Datetime.pad_dec 4 (Datetime.year d) ++ "-"
    ++ Datetime.pad_dec 2 (Datetime.month d) ++ "-"
    ++ Datetime.pad_dec 2 (Datetime.day d) ++ " "
    ++ Datetime.pad_dec 2 (Datetime.hour d) ++ ":"
    ++ Datetime.pad_dec 2 (Datetime.minute d) ++ ":"
    ++ Datetime.pad_dec 2 (Datetime.second d).
Proof.
  intros d. unfold TodoUi.created_label.
  change (TodoResponse.created_at (TodoResponse.from_todo r))
    with (Datetime.isoformat d).
  rewrite IsoFacts.isoformat_parts.
  repeat (rewrite LabelFacts.substring_append
            by (rewrite IsoFacts.pad_dec_length; simpl; lia);
          rewrite IsoFacts.pad_dec_length;
          cbn [Nat.sub substring]).
  rewrite LabelFacts.substring_0_0, LabelFacts.append_nil_r.
  repeat (rewrite LabelFacts.replace_char_append,
            LabelFacts.replace_char_pad_dec;
          cbn [TodoUi.replace_char]).
  rewrite LabelFacts.replace_char_pad_dec.
  reflexivity.
Qed.

(** ** The listing after a write *)

Module ListingFacts.
Import Session.

Lemma fields_inj a b : Datetime.fields a = Datetime.fields b -> a = b.
Proof.
  destruct a, b. unfold Datetime.fields. simpl. intros H.
  injection H as -> -> -> -> -> -> ->. reflexivity.
Qed.

Lemma eqb_eq a b : Datetime.eqb a b = true -> a = b.
Proof.
  unfold Datetime.eqb, Datetime.compare. intros H. apply fields_inj.
  apply DatetimeFacts.lex_compare_eq.
  destruct (Datetime.lex_compare (Datetime.fields a) (Datetime.fields b));
    [reflexivity | discriminate | discriminate].
Qed.

(** Between rows created at different times the creation times decide. *)
Lemma behind_distinct rank x y :
  Todo.created_at x <> Todo.created_at y ->
  behind rank x y = Datetime.ltb (Todo.created_at x) (Todo.created_at y).
Proof.
  intros Hxy. unfold behind.
  destruct (Datetime.eqb (Todo.created_at x) (Todo.created_at y)) eqn:E.
  - now apply eqb_eq in E.
  - cbn [andb]. apply orb_false_r.
Qed.

Lemma insert_desc_rank e e' x l :
  Forall (fun y => Todo.created_at x <> Todo.created_at y) l ->
  insert_desc e x l = insert_desc e' x l.
Proof.
  intros Hl. induction Hl as [|y l Hy Hl IH]; [reflexivity|].
  cbn [insert_desc].
  rewrite (behind_distinct e x y Hy), (behind_distinct e' x y Hy), IH.
  reflexivity.
Qed.

(** When no two rows were created at the same time, the engine's order
    among equal rows has no say in the listing. *)
Lemma sort_desc_rank e e' l :
  NoDup (map Todo.created_at l) -> sort_desc e l = sort_desc e' l.
Proof.
  induction l as [|x l IH]; intros Hd; [reflexivity|].
  cbn [map] in Hd. inversion Hd as [|? ? Hx Hl]; subst.
  cbn [sort_desc]. rewrite (IH Hl). apply insert_desc_rank.
  apply Forall_forall. intros y Hy Hxy.
  apply (Permutation_in _ (SortFacts.sort_desc_perm e' l)) in Hy.
  apply Hx. rewrite Hxy. now apply in_map.
Qed.

Lemma insert_desc_map (f : Todo.t -> Todo.t) x l :
  Todo.created_at (f x) = Todo.created_at x ->
  Forall (fun y => Todo.created_at (f y) = Todo.created_at y) l ->
  insert_desc heap_order (f x) (map f l)
  = map f (insert_desc heap_order x l).
Proof.
  intros Hx Hl. induction Hl as [|y l Hy Hl IH]; [reflexivity|].
  cbn [map insert_desc].
  assert (Hb : behind heap_order (f x) (f y) = behind heap_order x y).
  { unfold behind, heap_order. now rewrite Hx, Hy. }
  rewrite Hb. destruct (behind heap_order x y);
    [now rewrite IH | reflexivity].
Qed.

(** On an engine that keeps equal rows in table order, sorting looks at
    [created_at] only. *)
Lemma sort_desc_map (f : Todo.t -> Todo.t) l :
  Forall (fun y => Todo.created_at (f y) = Todo.created_at y) l ->
  sort_desc heap_order (map f l) = map f (sort_desc heap_order l).
Proof.
  intros Hl. induction Hl as [|x l Hx Hl IH]; [reflexivity|].
  cbn [map sort_desc]. rewrite IH. apply insert_desc_map; [exact Hx|].
  apply Forall_forall. intros y Hy.
  apply (Permutation_in _ (SortFacts.sort_desc_perm _ l)) in Hy.
  rewrite Forall_forall in Hl. now apply Hl.
Qed.

(** A row that comes behind none of the others goes to the front. *)
Lemma insert_desc_front rank x l :
  Forall (listed_before rank x) l -> insert_desc rank x l = x :: l.
Proof.
  intros Hl. destruct Hl as [|y l Hy _]; [reflexivity|].
  cbn [insert_desc]. now rewrite Hy.
Qed.

Lemma insert_desc_filter_out rank (p : Todo.t -> bool) x l :
  p x = false -> filter p (insert_desc rank x l) = filter p l.
Proof.
  intros Hx. induction l as [|y l IH]; cbn [insert_desc filter].
  - now rewrite Hx.
  - destruct (behind rank x y).
    + cbn [filter]. now rewrite IH.
    + cbn [filter]. now rewrite Hx.
Qed.

Lemma insert_desc_filter_in rank (p : Todo.t -> bool) x l :
  p x = true -> StronglySorted (listed_before rank) l ->
  filter p (insert_desc rank x l) = insert_desc rank x (filter p l).
Proof.
  intros Hx Hs. induction Hs as [|y l Hs IH Hy]; cbn [insert_desc filter].
  - now rewrite Hx.
  - destruct (behind rank x y) eqn:E.
    + cbn [filter]. rewrite IH.
      destruct (p y); [cbn [insert_desc]; now rewrite E | reflexivity].
    + cbn [filter]. rewrite Hx.
      destruct (p y); [cbn [insert_desc]; now rewrite E|].
      symmetry. apply insert_desc_front.
      apply Forall_forall. intros z Hz. apply filter_In in Hz.
      rewrite Forall_forall in Hy.
      apply (SortFacts.listed_before_trans rank x y z); [exact E|].
      apply Hy. exact (proj1 Hz).
Qed.

(** Sorting commutes with dropping rows. *)
Lemma sort_desc_filter_rows rank (p : Todo.t -> bool) l :
  sort_desc rank (filter p l) = filter p (sort_desc rank l).
Proof.
  induction l as [|x l IH]; [reflexivity|].
  cbn [filter sort_desc]. destruct (p x) eqn:Hx.
  - cbn [sort_desc]. rewrite IH. symmetry.
    apply insert_desc_filter_in; [exact Hx | apply SortFacts.sort_desc_listed].
  - rewrite IH. symmetry. now apply insert_desc_filter_out.
Qed.

Lemma from_todo_id d x :
  id_assigned d x ->
  forall i, (TodoResponse.id (TodoResponse.from_todo x) =? i) = Todo.has_id i x.
Proof.
  intros (j & Hj & Hr) i. unfold Todo.has_id. simpl. rewrite Hj. simpl.
  destruct (Z.eqb_spec j 0); [lia | reflexivity].
Qed.

End ListingFacts.

(** X19. In a reachable store where no two todos were created at the same
    time, the listing after [update_todo] or [toggle_todo_completion] of
    a stored todo is the listing before with that todo's entry replaced,
    where it stood, by the response the call returned: such a write does
    not move a todo in the list, whatever orders the engine holds equal
    rows in before and after. *)
Theorem listing_after_write
  (e1 e2 : Todo.t -> Z) (i : Z) (d : TodoUpdate.t) (w : World) (r : Todo.t)
  (Hw : reachable w) (H : find (Todo.has_id i) (todos (db w)) = Some r)
  (Hd : NoDup (map Todo.created_at (todos (db w)))) :
  (let (res, w') := TodoService.update_todo i d w in
   exists resp, res = Some resp /\
     fst (TodoService.get_all_todos e2 w')
     = map (fun t => if TodoResponse.id t =? i then resp else t)
           (fst (TodoService.get_all_todos e1 w))) /\
  (let (res, w') := TodoService.toggle_todo_completion i w in
   exists resp, res = Some resp /\
     fst (TodoService.get_all_todos e2 w')
     = map (fun t => if TodoResponse.id t =? i then resp else t)
           (fst (TodoService.get_all_todos e1 w))).
Proof.
  pose proof (SessionFacts.find_has_id _ _ _ H) as [Hid _].
  pose proof (reachable_wf w Hw) as [_ Hall].
  destruct (unique_split i _ r (reachable_unique_ids w Hw) H)
    as (l1 & l2 & Hl & H1 & H2).
  assert (Honly : forall x, In x (todos (db w)) ->
                    Todo.has_id i x = true -> x = r).
  { intros x Hx Hxi. rewrite Hl in Hx. apply in_app_or in Hx.
    rewrite Forall_forall in H1, H2.
    destruct Hx as [Hx | [Hx | Hx]]; [|now symmetry|];
      [rewrite (H1 x Hx) in Hxi | rewrite (H2 x Hx) in Hxi]; discriminate. }
  assert (Hgen : forall r',
            Todo.id r' = Some i -> Todo.created_at r' = Todo.created_at r ->
            map TodoResponse.from_todo
              (Session.sort_desc e2 (map (Session.replace r') (todos (db w))))
            = map (fun t => if TodoResponse.id t =? i
                            then TodoResponse.from_todo r' else t)
                  (map TodoResponse.from_todo
                     (Session.sort_desc e1 (todos (db w))))).
  { intros r' Hid' Hc'.
    assert (Hkeep : Forall (fun y => Todo.created_at (Session.replace r' y)
                                     = Todo.created_at y) (todos (db w))).
    { apply Forall_forall. intros x Hx.
      unfold Session.replace. rewrite Hid'.
      destruct (Todo.has_id i x) eqn:Hxi; [|reflexivity].
      now rewrite (Honly x Hx Hxi). }
    assert (Hd' : NoDup (map Todo.created_at
                           (map (Session.replace r') (todos (db w))))).
    { rewrite map_map.
      rewrite (map_ext_in _ Todo.created_at); [exact Hd|].
      rewrite Forall_forall in Hkeep. exact Hkeep. }
    rewrite (ListingFacts.sort_desc_rank e2 heap_order _ Hd').
    rewrite (ListingFacts.sort_desc_rank e1 heap_order _ Hd).
    rewrite (ListingFacts.sort_desc_map _ _ Hkeep).
    rewrite !map_map. apply map_ext_in. intros x Hx.
    apply (Permutation_in _ (SortFacts.sort_desc_perm _ _)) in Hx.
    rewrite Forall_forall in Hall.
    rewrite (ListingFacts.from_todo_id (db w) x (Hall x Hx) i).
    unfold Session.replace. rewrite Hid'.
    now destruct (Todo.has_id i x). }
  split.
  - rewrite (update_todo_found i d w r H). eexists. split; [reflexivity|].
    unfold TodoService.get_all_todos, bind, ret,
      Session.select_order_by_desc_created_at. cbn [fst snd db todos].
    apply Hgen.
    + simpl. now rewrite apply_fields_id.
    + simpl. apply apply_fields_created_at.
  - rewrite (toggle_todo_completion_found i w r H).
    eexists. split; [reflexivity|].
    unfold TodoService.get_all_todos, bind, ret,
      Session.select_order_by_desc_created_at. cbn [fst snd db todos].
    apply Hgen; [exact Hid | reflexivity].
Qed.

Lemma listing_after_write_witness :
  reachable three_todos /\
  find (Todo.has_id 3) (todos (db three_todos)) = Some todo_3 /\
  NoDup (map Todo.created_at (todos (db three_todos))) /\
  let (res, w') := TodoService.toggle_todo_completion 3 three_todos in
  exists resp, res = Some resp /\
    fst (TodoService.get_all_todos newest_first w')
    = map (fun t => if TodoResponse.id t =? 3 then resp else t)
          (fst (TodoService.get_all_todos heap_order three_todos)).
Proof.
  assert (Hw : reachable three_todos).
  { eexists ticking_clock, _. reflexivity. }
  assert (H : find (Todo.has_id 3) (todos (db three_todos)) = Some todo_3).
  { reflexivity. }
  assert (Hd : NoDup (map Todo.created_at (todos (db three_todos)))).
  { vm_compute. repeat constructor; simpl; intuition discriminate. }
  split; [exact Hw|]. split; [exact H|]. split; [exact Hd|].
  exact (proj2 (listing_after_write heap_order newest_first 3
                  (TodoUpdate.mk None None None) three_todos todo_3 Hw H Hd)).
Defined.

(** X20. In a reachable store, the listing after [delete_todo] is the listing
    before without the entry of that id, the other entries in the order
    they had; for an id that is not stored that is the whole listing.
    This holds on an engine that holds equal rows in one order throughout,
    and, when no two todos were created at the same time, whatever the
    engine's orders before and after. *)
Theorem listing_after_delete
  (rank : Todo.t -> Z) (i : Z) (w : World) (Hw : reachable w) :
  fst (TodoService.get_all_todos rank (snd (TodoService.delete_todo i w)))
  = filter (fun t => negb (TodoResponse.id t =? i))
           (fst (TodoService.get_all_todos rank w)) /\
  (NoDup (map Todo.created_at (todos (db w))) ->
   forall rank',
     fst (TodoService.get_all_todos rank' (snd (TodoService.delete_todo i w)))
     = filter (fun t => negb (TodoResponse.id t =? i))
              (fst (TodoService.get_all_todos rank w))).
Proof.
  pose proof (reachable_wf w Hw) as [_ Hall].
  assert (Hmap : forall l, Forall (id_assigned (db w)) l ->
            map TodoResponse.from_todo
              (filter (fun x => negb (Todo.has_id i x)) l)
            = filter (fun t => negb (TodoResponse.id t =? i))
                     (map TodoResponse.from_todo l)).
  { intros l Hl. induction Hl as [|x l Hx Hl IH]; [reflexivity|].
    cbn [filter map].
    rewrite (ListingFacts.from_todo_id (db w) x Hx i).
    destruct (Todo.has_id i x); cbn [negb map]; now rewrite IH. }
  assert (Hsorted : forall e, Forall (id_assigned (db w))
                      (Session.sort_desc e (todos (db w)))).
  { intros e. apply Forall_forall. intros x Hx.
    apply (Permutation_in _ (SortFacts.sort_desc_perm _ _)) in Hx.
    rewrite Forall_forall in Hall. now apply Hall. }
  assert (Hrows : todos (db (snd (TodoService.delete_todo i w)))
                  = filter (fun x => negb (Todo.has_id i x)) (todos (db w))).
  { destruct (find (Todo.has_id i) (todos (db w))) as [r|] eqn:E.
    - now rewrite (delete_todo_found i w r E).
    - rewrite (delete_todo_none i w E). cbn [snd]. symmetry.
      apply filter_keep_miss.
      apply Forall_forall. intros x Hx.
      destruct (Todo.has_id i x) eqn:Hxi; [|reflexivity].
      pose proof (find_none _ _ E x Hx) as Hn. congruence. }
  assert (Hone : forall e,
            fst (TodoService.get_all_todos e
                   (snd (TodoService.delete_todo i w)))
            = filter (fun t => negb (TodoResponse.id t =? i))
                     (fst (TodoService.get_all_todos e w))).
  { intros e.
    unfold TodoService.get_all_todos, bind, ret,
      Session.select_order_by_desc_created_at. cbn [fst].
    rewrite Hrows, <- (Hmap _ (Hsorted e)).
    now rewrite ListingFacts.sort_desc_filter_rows. }
  split; [apply Hone|].
  intros Hd rank'. rewrite (Hone rank').
  unfold TodoService.get_all_todos, bind, ret,
    Session.select_order_by_desc_created_at. cbn [fst].
  now rewrite (ListingFacts.sort_desc_rank rank' rank _ Hd).
Qed.

Lemma listing_after_delete_witness :
  reachable three_todos /\
  map TodoResponse.id
    (fst (TodoService.get_all_todos heap_order
            (snd (TodoService.delete_todo 2 three_todos))))
  = [3; 1] /\
  fst (TodoService.get_all_todos newest_first
         (snd (TodoService.delete_todo 2 three_todos)))
  = filter (fun t => negb (TodoResponse.id t =? 2))
           (fst (TodoService.get_all_todos heap_order three_todos)).
Proof.
  assert (Hw : reachable three_todos).
  { eexists ticking_clock, _. reflexivity. }
  assert (Hd : NoDup (map Todo.created_at (todos (db three_todos)))).
  { vm_compute. repeat constructor; simpl; intuition discriminate. }
  split; [exact Hw|]. split.
  - rewrite (proj1 (listing_after_delete heap_order 2 three_todos Hw)).
    reflexivity.
  - exact (proj2 (listing_after_delete heap_order 2 three_todos Hw)
             Hd newest_first).
Defined.
